(** * Custom-Chatbot-Builder: FAQ pipeline and chat session, verified

    A shallow embedding of
      - [chatbot/data/processor.py]  ([DataProcessor])
      - [chatbot/models/trainer.py]  ([ChatbotTrainer])
      - [chatbot/api/app.py]         ([ChatbotInterface])
      - [chatbot/config/config.py]   (the configuration tables)
      - [chatbot/utils/logger.py]    ([setup_logger])
    together with the fragment of the Python string and [json] libraries
    these modules call. *)

From Stdlib Require Import Ascii String List ZArith NArith Lia Bool Arith.
Import ListNotations.

Set Implicit Arguments.
Set Warnings "-register-all".

(* ===================================================================== *)
(** ** Python values: strings, exceptions, dictionaries                   *)
(* ===================================================================== *)

(** A character is its Unicode code point, and a Python [str] the list of
    its characters.  The code points of Python are U+0000..U+10FFFF,
    surrogates included. *)
Definition char := N.
Definition str := list char.

(** An ASCII character of the source text, as a code point. *)
Definition ch (a : ascii) : char := N_of_ascii a.
Arguments ch a%_char.

(** String literals of the source (all of them ASCII). *)
Definition py (s : string) : str := map ch (list_ascii_of_string s).

Definition str_eqb (a b : str) : bool :=
  if list_eq_dec N.eq_dec a b then true else false.

(** [str(e)] of a raised exception, with the name of its class. *)
Record exn := mkExn { exn_class : str; exn_str : str }.

(** The outcome of a Python call: a value, or a raised exception. *)
Inductive result (A : Type) : Type :=
| Ok (a : A)
| Raise (e : exn).
Arguments Ok {A} a.
Arguments Raise {A} e.

Definition bind {A B} (m : result A) (k : A -> result B) : result B :=
  match m with
  | Ok a => k a
  | Raise e => Raise e
  end.

Declare Scope py_scope.
Delimit Scope py_scope with py.
Notation "x <- m ;; k" := (bind m (fun x => k))
  (at level 61, m at next level, right associativity) : py_scope.
Open Scope py_scope.

(** [try: body  except Exception as e: logger.error(...); raise]
    re-raises the exception it caught: the outcome is the body's.  What
    the logger writes goes to its own sinks (the console and the log
    file that [setup_logger] installs); they are outside the values and
    the states kept here, and no statement below is about them. *)
Definition try_log_reraise {A} (body : result A) : result A := body.

(** A [dict] keeps its items in insertion order; keys are unique. *)
Definition dict (V : Type) := list (str * V).

Fixpoint dict_get {V} (d : dict V) (k : str) : option V :=
  match d with
  | [] => None
  | (k', v) :: d' => if str_eqb k' k then Some v else dict_get d' k
  end.

(** [k in d] *)
Definition dict_mem {V} (k : str) (d : dict V) : bool :=
  match dict_get d k with Some _ => true | None => false end.

(** [d.items()] *)
Definition items {V} (d : dict V) : list (str * V) := d.

(** [repr(k)] of a key without quote or backslash, as [KeyError] prints it. *)
Definition repr_key (k : str) : str := py "'" ++ k ++ py "'".

(** [d[k]] *)
Definition dict_index {V} (d : dict V) (k : str) : result V :=
  match dict_get d k with
  | Some v => Ok v
  | None => Raise (mkExn (py "KeyError") (repr_key k))
  end.

(** [l[i]] for a list and a Python integer index (negative indices count
    from the end); out of range raises [IndexError]. *)
Definition getitem {A} (l : list A) (i : Z) : result A :=
  let n := Z.of_nat (length l) in
  let j := if (i <? 0)%Z then (n + i)%Z else i in
  if ((0 <=? j) && (j <? n))%Z%bool then
    match nth_error l (Z.to_nat j) with
    | Some x => Ok x
    | None => Raise (mkExn (py "IndexError") (py "list index out of range"))
    end
  else Raise (mkExn (py "IndexError") (py "list index out of range")).

(* ===================================================================== *)
(** ** The [str] methods used by the source                               *)
(* ===================================================================== *)

(** [str.isspace] on one character, which is what [strip] removes:
    U+0009..U+000D, U+001C..U+0020, U+0085, U+00A0, U+1680,
    U+2000..U+200A, U+2028, U+2029, U+202F, U+205F and U+3000. *)
Definition is_space (c : char) : bool :=
  (((0x09 <=? c) && (c <=? 0x0d)) || ((0x1c <=? c) && (c <=? 0x20))
   || (c =? 0x85) || (c =? 0xa0) || (c =? 0x1680)
   || ((0x2000 <=? c) && (c <=? 0x200a))
   || (c =? 0x2028) || (c =? 0x2029) || (c =? 0x202f) || (c =? 0x205f)
   || (c =? 0x3000))%N.

Fixpoint lstrip (s : str) : str :=
  match s with
  | [] => []
  | c :: s' => if is_space c then lstrip s' else s
  end.

Definition rstrip (s : str) : str := rev (lstrip (rev s)).

(** [s.strip()] *)
Definition strip (s : str) : str := rstrip (lstrip s).

(** [s.startswith(p)] *)
Fixpoint starts_with (p s : str) : bool :=
  match p, s with
  | [], _ => true
  | _ :: _, [] => false
  | a :: p', b :: s' => N.eqb a b && starts_with p' s'
  end.

(** [sub in s] *)
Fixpoint contains (sub s : str) : bool :=
  starts_with sub s
  || match s with
     | [] => false
     | _ :: s' => contains sub s'
     end.

(** [s.partition(sep)]: the text before and after the first occurrence of
    [sep], or [None] when [sep] does not occur. *)
Fixpoint partition (sep s : str) : option (str * str) :=
  if starts_with sep s then Some ([], skipn (length sep) s)
  else match s with
       | [] => None
       | c :: s' =>
           match partition sep s' with
           | Some (b, a) => Some (c :: b, a)
           | None => None
           end
       end.

(** [s.split(sep)] for a non-empty [sep] (every call site passes a
    non-empty literal): cut at each occurrence found scanning left to
    right, resuming after the occurrence.  The fuel bounds the number of
    cuts; [length s] is always enough. *)
Fixpoint split_fuel (n : nat) (sep s : str) : list str :=
  match n with
  | 0 => [s]
  | S n' =>
      match partition sep s with
      | None => [s]
      | Some (b, a) => b :: split_fuel n' sep a
      end
  end.

Definition split (sep s : str) : list str := split_fuel (length s) sep s.

(** [s.replace(old, new)] for a non-empty [old]: every occurrence found
    scanning left to right, resuming after the occurrence. *)
Fixpoint replace_fuel (n : nat) (old new s : str) : str :=
  match n with
  | 0 => s
  | S n' =>
      match partition old s with
      | None => s
      | Some (b, a) => b ++ new ++ replace_fuel n' old new a
      end
  end.

Definition replace (old new s : str) : str :=
  replace_fuel (length s) old new s.

(** [sep.join(parts)] *)
Fixpoint join (sep : str) (parts : list str) : str :=
  match parts with
  | [] => []
  | [p] => p
  | p :: rest => p ++ sep ++ join sep rest
  end.

(** Number of positions of [s] at which [sub] occurs. *)
Fixpoint count_sub (sub s : str) : nat :=
  (if starts_with sub s then 1 else 0)
  + match s with
    | [] => 0
    | _ :: s' => count_sub sub s'
    end.

(** [s.find(sub)]: position of the first occurrence. *)
Fixpoint find (sub s : str) : option nat :=
  if starts_with sub s then Some 0
  else match s with
       | [] => None
       | _ :: s' => option_map S (find sub s')
       end.

(** The first character, if any, is not whitespace. *)
Definition starts_clean (s : str) : bool :=
  match s with
  | [] => true
  | c :: _ => negb (is_space c)
  end.

(** No whitespace at either end. *)
Definition trimmed (s : str) : bool := starts_clean s && starts_clean (rev s).

(* ===================================================================== *)
(** ** chatbot/config/config.py                                           *)
(* ===================================================================== *)

(** Values held by the configuration tables. A float literal is kept as
    written: [PFloat m e] stands for the decimal [m * 10^e]. *)
Inductive pyval :=
| PStr (s : str)
| PInt (n : Z)
| PFloat (m e : Z).

(** [SAMPLE_INDUSTRIES]: sample industries and their default FAQs. *)
Definition SAMPLE_INDUSTRIES : dict (dict str) :=
  [ (py "retail",
      [ (py "What are your store hours?",
         py "Our store is open Monday through Saturday from 9 AM to 6 PM.");
        (py "Do you offer returns?",
         py "Yes, we offer returns within 30 days of purchase with original receipt.") ]);
    (py "restaurant",
      [ (py "Do you take reservations?",
         py "Yes, we accept reservations through our website or by phone.");
        (py "Are you open for lunch?",
         py "Yes, we serve lunch from 11 AM to 3 PM daily.") ]);
    (py "fitness",
      [ (py "What are your membership options?",
         py "We offer monthly and annual memberships with various packages.");
        (py "Do you offer personal training?",
         py "Yes, we have certified personal trainers available for one-on-one sessions.") ]) ].

(** [DEVICE]: decided by [torch.backends.mps.is_available()]. *)
Definition DEVICE (mps_available : bool) : str :=
  if mps_available then py "mps" else py "cpu".

(** [MODEL_CONFIG] *)
Definition MODEL_CONFIG (mps_available : bool) : dict pyval :=
  [ (py "base_model", PStr (py "distilgpt2"));
    (py "device", PStr (DEVICE mps_available)) ].

(** [GENERATION_CONFIG] *)
Definition GENERATION_CONFIG : dict pyval :=
  [ (py "max_length", PInt 128);
    (py "num_beams", PInt 2);
    (py "temperature", PFloat 7 (-1));
    (py "top_k", PInt 50);
    (py "top_p", PFloat 9 (-1));
    (py "no_repeat_ngram_size", PInt 2) ].

(** A [pathlib.Path], as the expression that built it: [Path(s)] or
    [p / name]. *)
Inductive path :=
| Path (s : str)
| Div (p : path) (name : str).

(** [DATA_DIR = ROOT_DIR / "data"], [MODELS_DIR = ROOT_DIR / "models"];
    [ROOT_DIR] is where the package is installed. *)
Definition DATA_DIR (ROOT_DIR : path) : path := Div ROOT_DIR (py "data").
Definition MODELS_DIR (ROOT_DIR : path) : path := Div ROOT_DIR (py "models").

(* ===================================================================== *)
(** ** chatbot/data/processor.py: [DataProcessor]                         *)
(* ===================================================================== *)

(** [self.sep_token] *)
Definition sep_token : str := py "###".

(** The two FAQ markers and the line break. *)
Definition Qm : str := py "Q:".
Definition Am : str := py "A:".
Definition nl : str := [(ch "010")].

Definition qa_pair := (str * str)%type.

(** The body of the [for line in lines] loop of [parse_faq_input], with
    the list [qa_pairs] it appends to. *)
Fixpoint parse_lines (lines : list str) (qa_pairs : list qa_pair)
  : result (list qa_pair) :=
  match lines with
  | [] => Ok qa_pairs
  | line :: rest =>
      if contains Qm line && contains Am line then
        before <- getitem (split Am line) 0 ;;
        let q_part := strip (replace Qm [] before) in
        after <- getitem (split Am line) 1 ;;
        let a_part := strip after in
        parse_lines rest (qa_pairs ++ [(q_part, a_part)])
      else parse_lines rest qa_pairs
  end.

(** [lines = raw_text.strip().split("\n")] *)
Definition input_lines (raw_text : str) : list str := split nl (strip raw_text).

Definition parse_faq_input (raw_text : str) : result (list qa_pair) :=
  try_log_reraise (parse_lines (input_lines raw_text) []).

(** One row of the dataset: [{"text": text}]. *)
Record example := mkExample { text : str }.

(** [f"{question} {self.sep_token} {answer}"] *)
Definition format_example (qa : qa_pair) : str :=
  fst qa ++ py " " ++ sep_token ++ py " " ++ snd qa.

(** The [for question, answer in all_qa_pairs] loop with the list
    [examples] it appends to. *)
Fixpoint build_examples (all_qa_pairs : list qa_pair) (examples : list example)
  : list example :=
  match all_qa_pairs with
  | [] => examples
  | qa :: rest =>
      build_examples rest (examples ++ [mkExample (format_example qa)])
  end.

(** [all_qa_pairs]: a copy of the custom pairs, extended with the items
    of the industry's table when the industry is a key of the catalog. *)
Definition all_qa_pairs (custom_faqs : list qa_pair) (industry : str)
  : result (list qa_pair) :=
  if dict_mem industry SAMPLE_INDUSTRIES then
    faqs <- dict_index SAMPLE_INDUSTRIES industry ;;
    Ok (custom_faqs ++ map (fun qa => (fst qa, snd qa)) (items faqs))
  else Ok custom_faqs.

(** The dataset is the list of its rows, in order. *)
Definition prepare_training_data (business_data : dict str)
    (custom_faqs : list qa_pair) (industry : str) : result (list example) :=
  try_log_reraise
    (pairs <- all_qa_pairs custom_faqs industry ;;
     Ok (build_examples pairs [])).

(* ===================================================================== *)
(** ** The [json] module: [json.dump(obj, f, indent=2)] and [json.load]   *)
(* ===================================================================== *)

(** The JSON values the exporter builds: strings, lists and dicts. *)
Inductive json :=
| JStr (s : str)
| JArr (elems : list json)
| JObj (fields : list (str * json)).

Definition dquote : char := (ch "034").
Definition backslash : char := (ch "092").

(** The code points of Python, and the two halves of the surrogate
    range. *)
Definition is_code_point (c : char) : bool := (c <=? 0x10ffff)%N.
Definition is_high_surrogate (c : char) : bool :=
  ((0xd800 <=? c) && (c <=? 0xdbff))%N.
Definition is_low_surrogate (c : char) : bool :=
  ((0xdc00 <=? c) && (c <=? 0xdfff))%N.

Definition hex_digit (n : N) : char :=
  nth (N.to_nat n) (py "0123456789abcdef") (ch "0").

(** ['\\u{0:04x}'.format(n)] *)
Definition u_escape (n : N) : str :=
  py "\u"
  ++ [hex_digit (n / 4096 mod 16); hex_digit (n / 256 mod 16);
      hex_digit (n / 16 mod 16); hex_digit (n mod 16)]%N.

(** [ensure_ascii=True]: quote and backslash are escaped, the control
    characters with a short form take it, every other character outside
    [' '..'~'] becomes [\uXXXX], and a character above U+FFFF the
    [\uXXXX\uXXXX] of its two surrogates. *)
Definition escape_char (c : char) : str :=
  if N.eqb c dquote then [backslash; dquote]
  else if N.eqb c backslash then [backslash; backslash]
  else if (c =? 10)%N then py "\n"
  else if (c =? 13)%N then py "\r"
  else if (c =? 9)%N then py "\t"
  else if (c =? 8)%N then py "\b"
  else if (c =? 12)%N then py "\f"
  else if ((32 <=? c) && (c <=? 126))%N then [c]
  else if (c <? 0x10000)%N then u_escape c
  else
    let n := (c - 0x10000)%N in
    let s1 := N.lor 0xd800 (N.land (N.shiftr n 10) 0x3ff) in
    let s2 := N.lor 0xdc00 (N.land n 0x3ff) in
    u_escape s1 ++ u_escape s2.

Definition encode_string (s : str) : str :=
  [dquote] ++ flat_map escape_char s ++ [dquote].

(** A line break followed by the indentation of the nesting level. *)
Definition newline_indent (level : nat) : str :=
  nl ++ repeat (ch " ") (2 * level).

Definition item_separator (level : nat) : str := py "," ++ newline_indent level.

Fixpoint encode (level : nat) (v : json) : str :=
  match v with
  | JStr s => encode_string s
  | JArr [] => py "[]"
  | JArr elems =>
      py "[" ++ newline_indent (S level)
      ++ join (item_separator (S level)) (map (encode (S level)) elems)
      ++ newline_indent level ++ py "]"
  | JObj [] => py "{}"
  | JObj fields =>
      py "{" ++ newline_indent (S level)
      ++ join (item_separator (S level))
           (map (fun kv => match kv with
                           | (k, x) => encode_string k ++ py ": " ++ encode (S level) x
                           end) fields)
      ++ newline_indent level ++ py "}"
  end.

(** [json.dumps(obj, indent=2)]: the text [json.dump] writes. *)
Definition json_dumps (v : json) : str := encode 0 v.

Definition is_json_ws (c : char) : bool :=
  ((c =? 32) || (c =? 9) || (c =? 10) || (c =? 13))%N.

Fixpoint skip_ws (s : str) : str :=
  match s with
  | [] => []
  | c :: s' => if is_json_ws c then skip_ws s' else s
  end.

Definition hex_value (c : char) : option N :=
  (if (48 <=? c) && (c <=? 57) then Some (c - 48)
   else if (97 <=? c) && (c <=? 102) then Some (c - 87)
   else if (65 <=? c) && (c <=? 70) then Some (c - 55)
   else None)%N.

Definition hex4 (a b c d : char) : option N :=
  match hex_value a, hex_value b, hex_value c, hex_value d with
  | Some x, Some y, Some z, Some w => Some (((x * 16 + y) * 16 + z) * 16 + w)%N
  | _, _, _, _ => None
  end.

(** The character a backslash escape stands for. *)
Definition unescape (e : char) : option char :=
  if N.eqb e dquote then Some dquote
  else if N.eqb e backslash then Some backslash
  else if N.eqb e (ch "/") then Some (ch "/")
  else if N.eqb e (ch "b") then Some (ch "008")
  else if N.eqb e (ch "f") then Some (ch "012")
  else if N.eqb e (ch "n") then Some (ch "010")
  else if N.eqb e (ch "r") then Some (ch "013")
  else if N.eqb e (ch "t") then Some (ch "009")
  else None.

Definition cons_fst {A B} (a : A) (r : option (list A * B)) : option (list A * B) :=
  match r with
  | Some (l, b) => Some (a :: l, b)
  | None => None
  end.

(** The character two surrogates stand for together. *)
Definition join_surrogates (uni uni2 : N) : char :=
  (0x10000 + N.lor (N.shiftl (uni - 0xd800) 10) (uni2 - 0xdc00))%N.

(** The decoder's string scanner, started after the opening quote: the
    decoded string and the text after the closing quote.  [None] stands
    for [JSONDecodeError].  The [\uXXXX] of a high surrogate followed at
    once by the [\uXXXX] of a low surrogate is decoded to one
    character. *)
Fixpoint scanstring (s : str) : option (str * str) :=
  match s with
  | [] => None
  | c :: r =>
      if N.eqb c dquote then Some ([], r)
      else if N.eqb c backslash then
        match r with
        | [] => None
        | e :: r1 =>
            if N.eqb e (ch "u") then
              match r1 with
              | h1 :: h2 :: h3 :: h4 :: r2 =>
                  match hex4 h1 h2 h3 h4 with
                  | Some uni =>
                      if is_high_surrogate uni then
                        match r2 with
                        | b :: u :: l1 :: l2 :: l3 :: l4 :: r3 =>
                            if N.eqb b backslash && N.eqb u (ch "u") then
                              match hex4 l1 l2 l3 l4 with
                              | Some uni2 =>
                                  if is_low_surrogate uni2 then
                                    cons_fst (join_surrogates uni uni2)
                                      (scanstring r3)
                                  else cons_fst uni (scanstring r2)
                              | None => None
                              end
                            else cons_fst uni (scanstring r2)
                        | _ => cons_fst uni (scanstring r2)
                        end
                      else cons_fst uni (scanstring r2)
                  | None => None
                  end
              | _ => None
              end
            else
              match unescape e with
              | Some c' => cons_fst c' (scanstring r1)
              | None => None
              end
        end
      else if (c <? 32)%N then None
      else cons_fst c (scanstring r)
  end.

(** [dict(pairs)]: a repeated key keeps its first position and takes the
    last value. *)
Fixpoint dict_set {V} (d : dict V) (k : str) (v : V) : dict V :=
  match d with
  | [] => [(k, v)]
  | (k', v') :: d' =>
      if str_eqb k' k then (k', v) :: d' else (k', v') :: dict_set d' k v
  end.

Definition dict_of_pairs {V} (pairs : list (str * V)) : dict V :=
  fold_left (fun d kv => dict_set d (fst kv) (snd kv)) pairs [].

(** The decoder, for values made of strings, arrays and objects; the
    fuel bounds the number of nested calls. *)
Fixpoint parse_value (n : nat) (s : str) {struct n} : option (json * str) :=
  match n with
  | 0 => None
  | S n' =>
      match s with
      | [] => None
      | c :: r =>
          if N.eqb c dquote then
            match scanstring r with
            | Some (t, rest) => Some (JStr t, rest)
            | None => None
            end
          else if N.eqb c (ch "[") then
            match skip_ws r with
            | [] => None
            | c1 :: r1 =>
                if N.eqb c1 (ch "]") then Some (JArr [], r1)
                else match parse_elements n' (c1 :: r1) with
                     | Some (elems, rest) => Some (JArr elems, rest)
                     | None => None
                     end
            end
          else if N.eqb c (ch "{") then
            match skip_ws r with
            | [] => None
            | c1 :: r1 =>
                if N.eqb c1 (ch "}") then Some (JObj [], r1)
                else match parse_members n' (c1 :: r1) with
                     | Some (pairs, rest) => Some (JObj (dict_of_pairs pairs), rest)
                     | None => None
                     end
            end
          else None
      end
  end
with parse_elements (n : nat) (s : str) {struct n} : option (list json * str) :=
  match n with
  | 0 => None
  | S n' =>
      match parse_value n' s with
      | None => None
      | Some (v, r) =>
          match skip_ws r with
          | [] => None
          | c :: r1 =>
              if N.eqb c (ch ",") then
                cons_fst v (parse_elements n' (skip_ws r1))
              else if N.eqb c (ch "]") then Some ([v], r1)
              else None
          end
      end
  end
with parse_members (n : nat) (s : str) {struct n}
  : option (list (str * json) * str) :=
  match n with
  | 0 => None
  | S n' =>
      match s with
      | [] => None
      | q :: r =>
          if N.eqb q dquote then
            match scanstring r with
            | None => None
            | Some (k, r0) =>
                match skip_ws r0 with
                | [] => None
                | c :: r1 =>
                    if N.eqb c (ch ":") then
                      match parse_value n' (skip_ws r1) with
                      | None => None
                      | Some (v, r2) =>
                          match skip_ws r2 with
                          | [] => None
                          | c2 :: r3 =>
                              if N.eqb c2 (ch ",") then
                                cons_fst (k, v) (parse_members n' (skip_ws r3))
                              else if N.eqb c2 (ch "}") then Some ([(k, v)], r3)
                              else None
                          end
                      end
                    else None
                end
            end
          else None
      end
  end.

(** [json.loads(text)]: one value, surrounded by optional whitespace. *)
Definition json_loads (s : str) : option json :=
  match parse_value (S (length s)) (skip_ws s) with
  | Some (v, rest) =>
      match skip_ws rest with
      | [] => Some v
      | _ :: _ => None
      end
  | None => None
  end.

(* ===================================================================== *)
(** ** Stateful code: a state monad with exceptions                       *)
(* ===================================================================== *)

(** A computation over a state [S]: its outcome and the state it leaves.
    A raised exception keeps the state reached when it was raised. *)
Definition M (S A : Type) : Type := S -> result A * S.

Definition ret {S A} (a : A) : M S A := fun s => (Ok a, s).

Definition of_result {S A} (r : result A) : M S A := fun s => (r, s).

Definition mbind {S A B} (m : M S A) (k : A -> M S B) : M S B :=
  fun s =>
    match m s with
    | (Ok a, s') => k a s'
    | (Raise e, s') => (Raise e, s')
    end.

Notation "x <~ m ;; k" := (mbind m (fun x => k))
  (at level 61, m at next level, right associativity) : py_scope.
Notation "m ;;; k" := (mbind m (fun _ => k))
  (at level 61, right associativity) : py_scope.

Definition get {S} : M S S := fun s => (Ok s, s).
Definition modify {S} (f : S -> S) : M S unit := fun s => (Ok tt, f s).

(** Run a computation on a component of the state. *)
Definition zoom {S S' A} (proj : S -> S') (upd : S' -> S -> S) (m : M S' A)
  : M S A :=
  fun s => match m (proj s) with (r, s') => (r, upd s' s) end.

(* ===================================================================== *)
(** ** [DataProcessor.export_chatbot_data] and the files it writes        *)
(* ===================================================================== *)

(** The disk, as the exporter meets it.  A path names a file through
    [file_of]: two spellings of a path, or a path and a link to it, can
    name the same file.  [open_error] is the error [open(p, "w")] raises
    for a path that cannot be opened for writing.  [write_error] is the
    error raised while a text is written to a file that was opened (and
    so emptied) before, with the number of characters that reached the
    file.  The checkpoint that training saves belongs to the state of the
    framework, and the log file to the logger: neither is kept here. *)
Record filesystem := mkFs {
  file_of : path -> N;
  content : N -> option str;
  open_error : path -> option exn;
  write_error : path -> str -> option (exn * nat)
}.

(** The disk once the file named by [p] holds [data]. *)
Definition store (p : path) (data : str) (fs : filesystem) : filesystem :=
  mkFs (file_of fs)
       (fun f => if N.eqb f (file_of fs p) then Some data else content fs f)
       (open_error fs) (write_error fs).

(** [with open(p, "w") as f: f.write(data)]: the file is created or
    emptied when it is opened; then [data] is written, all of it or,
    when writing fails, its first characters. *)
Definition write_file (p : path) (data : str) : M filesystem unit :=
  fun fs =>
    match open_error fs p with
    | Some e => (Raise e, fs)
    | None =>
        match write_error fs p data with
        | Some (e, written) => (Raise e, store p (firstn written data) fs)
        | None => (Ok tt, store p data fs)
        end
    end.

(** [with open(p) as f: return f.read()] *)
Definition read_file (p : path) (fs : filesystem) : option str :=
  content fs (file_of fs p).

(** [export_data], the document handed to [json.dump]. *)
Definition export_data (business_data : dict str) (qa_pairs : list qa_pair)
  : json :=
  JObj [ (py "business_info",
           JObj (map (fun kv => (fst kv, JStr (snd kv))) business_data));
         (py "qa_pairs",
           JArr (map (fun qa => JObj [ (py "question", JStr (fst qa));
                                       (py "answer", JStr (snd qa)) ])
                     qa_pairs)) ].

Definition default_export_file (ROOT_DIR : path) : path :=
  Div (DATA_DIR ROOT_DIR) (py "chatbot_export.json").

Definition export_chatbot_data (ROOT_DIR : path) (business_data : dict str)
    (qa_pairs : list qa_pair) (output_file : option path) : M filesystem path :=
  let data := export_data business_data qa_pairs in
  let output_file :=
    match output_file with
    | None => default_export_file ROOT_DIR
    | Some p => p
    end in
  write_file output_file (json_dumps data) ;;;
  ret output_file.

(** Reading an export back: [json.load(open(p))]. *)
Definition load_export (p : path) (fs : filesystem) : option json :=
  match read_file p fs with
  | Some data => json_loads data
  | None => None
  end.

(* ===================================================================== *)
(** ** chatbot/models/trainer.py: [ChatbotTrainer]                        *)
(* ===================================================================== *)

(** [response.split("###")[-1].strip()]: the clean-up of the decoded
    output at the end of [generate_response]. *)
Definition clean_response (response : str) : result str :=
  field <- getitem (split (py "###") response) (-1) ;;
  Ok (strip field).

Section ChatbotTrainer.

(** The deep-learning framework the trainer drives: its state (weights
    on disk, random generator), model handles and token tensors. *)
Variables world model tokens : Type.
Variable mps_available : bool.

(** [self.tokenizer.encode(text, return_tensors="pt").to(self.device)] *)
Variable tokenizer_encode : str -> M world tokens.
(** [self.model.generate(input_ids, max_length=.., temperature=.., top_p=.., ..)] *)
Variable model_generate : model -> tokens -> pyval -> pyval -> pyval -> M world tokens.
(** [self.tokenizer.decode(output_ids[0], skip_special_tokens=True)] *)
Variable tokenizer_decode : tokens -> M world str.
(** [AutoModelForCausalLM.from_pretrained(str(model_path))] *)
Variable from_pretrained : path -> M world model.
(** [self.model.to(self.device)] *)
Variable model_to : model -> str -> M world unit.

(** The trainer object: the model it holds, next to the framework. *)
Record trainer := mkTrainer { tr_model : model; tr_world : world }.

Definition framework {A} (m : M world A) : M trainer A :=
  zoom tr_world (fun w tr => mkTrainer (tr_model tr) w) m.

Definition set_model (m : model) : M trainer unit :=
  modify (fun tr => mkTrainer m (tr_world tr)).

(** [generate_response], reading the generation settings from the
    table [cfg]. *)
Definition generate_response_with (cfg : dict pyval) (question : str)
  : M trainer str :=
  let input_text := question ++ py " ###" in
  input_ids <~ framework (tokenizer_encode input_text) ;;
  max_length <~ of_result (dict_index cfg (py "max_length")) ;;
  temperature <~ of_result (dict_index cfg (py "temperature")) ;;
  top_p <~ of_result (dict_index cfg (py "top_p")) ;;
  tr <~ get ;;
  output_ids <~ framework
    (model_generate (tr_model tr) input_ids max_length temperature top_p) ;;
  response <~ framework (tokenizer_decode output_ids) ;;
  of_result (clean_response response).

(** The source reads the settings from [MODEL_CONFIG]. *)
Definition generate_response (question : str) : M trainer str :=
  generate_response_with (MODEL_CONFIG mps_available) question.

Definition load_model (model_path : path) : M trainer unit :=
  m <~ framework (from_pretrained model_path) ;;
  set_model m ;;;
  framework (model_to m (DEVICE mps_available)).

End ChatbotTrainer.

(* ===================================================================== *)
(** ** chatbot/api/app.py: [ChatbotInterface]                             *)
(* ===================================================================== *)

(** What a request did, in order: notices shown with [gr.Info] and calls
    made on the trainer, the tokenizer and the exporter. *)
Inductive event :=
| Info (msg : str)
| LoadModel (p : path)
| GenerateResponse (question : str)
| TokenizeData
| Train
| Export.

Section ChatbotInterface.

(** [self.trainer] and the values it passes around. *)
Variables T tokenized loss : Type.
Variable ROOT_DIR : path.

(** [self.trainer.load_model], [self.trainer.generate_response],
    [self.processor.tokenize_data] (which runs the trainer's
    tokenizer) and [self.trainer.train]. *)
Variable load_model : path -> M T unit.
Variable generate_response : str -> M T str.
Variable tokenize_data : list example -> M T tokenized.
Variable train : tokenized -> M T (loss * path).

(** [f"{loss:.4f}"] and [str(path)]. *)
Variable format_loss : loss -> str.
Variable path_str : path -> str.

(** The interface object: its trainer, the attribute
    [loaded_model_path] ([None] until it is first set), the disk the
    exporter writes to, and the events of the requests served so far. *)
Record iface := mkIface {
  trainer_of : T;
  loaded_model_path : option str;
  files : filesystem;
  events : list event
}.

Definition on_trainer {A} (m : M T A) : M iface A :=
  zoom trainer_of
    (fun t st => mkIface t (loaded_model_path st) (files st) (events st)) m.

Definition on_files {A} (m : M filesystem A) : M iface A :=
  zoom files
    (fun fs st => mkIface (trainer_of st) (loaded_model_path st) fs (events st)) m.

Definition emit (e : event) : M iface unit :=
  modify (fun st =>
    mkIface (trainer_of st) (loaded_model_path st) (files st) (events st ++ [e])).

Definition set_loaded_model_path (p : str) : M iface unit :=
  modify (fun st => mkIface (trainer_of st) (Some p) (files st) (events st)).

(** [not hasattr(self, "loaded_model_path") or self.loaded_model_path != model_path] *)
Definition needs_load (st : iface) (model_path : str) : bool :=
  match loaded_model_path st with
  | None => true
  | Some p => negb (str_eqb p model_path)
  end.

(** [not s] for a string. *)
Definition is_empty (s : str) : bool :=
  match s with [] => true | _ :: _ => false end.

Definition chat_history := list qa_pair.

(** The [try] block of [chat].  [history.append] extends the caller's
    list in place and that list is returned: the history returned is the
    one passed in with the turn added at its end. *)
Definition chat_body (question model_path : str) (history : chat_history)
  : M iface (str * chat_history) :=
  if is_empty model_path then
    ret (py "Please train the chatbot first!", history)
  else if is_empty question then
    ret (py "Please ask a question!", history)
  else
    st <~ get ;;
    (if needs_load st model_path then
       emit (LoadModel (Path model_path)) ;;;
       on_trainer (load_model (Path model_path)) ;;;
       set_loaded_model_path model_path
     else ret tt) ;;;
    emit (GenerateResponse question) ;;;
    response <~ on_trainer (generate_response question) ;;
    ret (response, history ++ [(question, response)]).

(** [chat]: the [try] block, and the [except Exception as e] clause
    that answers with the error text.  It always returns: the response
    and the history, and the interface as the request leaves it. *)
Definition chat (question model_path : str) (history : chat_history)
    (st : iface) : (str * chat_history) * iface :=
  match chat_body question model_path history st with
  | (Ok v, st') => (v, st')
  | (Raise e, st') => ((py "Error: " ++ exn_str e, history), st')
  end.

(** The [try] block of [train_chatbot]. *)
Definition train_chatbot_body (business_name industry faq_text : str)
  : M iface (str * str) :=
  emit (Info (py "Starting chatbot training...")) ;;;
  qa_pairs <~ of_result (parse_faq_input faq_text) ;;
  emit (Info (py "FAQs processed successfully")) ;;;
  let business_data := [(py "name", business_name); (py "industry", industry)] in
  dataset <~ of_result (prepare_training_data business_data qa_pairs industry) ;;
  emit (Info (py "Training data prepared")) ;;;
  emit TokenizeData ;;;
  tokenized_dataset <~ on_trainer (tokenize_data dataset) ;;
  emit (Info (py "Data tokenized")) ;;;
  emit Train ;;;
  trained <~ on_trainer (train tokenized_dataset) ;;
  emit (Info (py "Model training completed")) ;;;
  emit Export ;;;
  export_path <~ on_files (export_chatbot_data ROOT_DIR business_data qa_pairs None) ;;
  emit (Info (py "Chatbot data exported")) ;;;
  ret (py "Training completed! Loss: " ++ format_loss (fst trained)
       ++ nl ++ py "Model saved to: " ++ path_str (snd trained)
       ++ nl ++ py "Data exported to: " ++ path_str export_path,
       path_str (snd trained)).

(** [train_chatbot]: the status message and the model path; the
    [except] clause builds a [gr.Error] without raising it and answers
    with the error text and an empty path. *)
Definition train_chatbot (business_name industry faq_text : str)
    (st : iface) : (str * str) * iface :=
  match train_chatbot_body business_name industry faq_text st with
  | (Ok v, st') => (v, st')
  | (Raise e, st') => ((py "Error: " ++ exn_str e, []), st')
  end.

End ChatbotInterface.

(* ===================================================================== *)
(** ** Notions used to state the properties                               *)
(* ===================================================================== *)

(** A line the parser considers: both markers occur in it. *)
Definition candidate (line : str) : bool :=
  contains Qm line && contains Am line.

(** Neither marker occurs. *)
Definition no_marker (s : str) : bool :=
  negb (contains Qm s) && negb (contains Am s).

(** The pair the loop body builds from a candidate line. *)
Definition line_pair (line : str) : qa_pair :=
  (strip (replace Qm [] (nth 0 (split Am line) [])),
   strip (nth 1 (split Am line) [])).

(** A line made of a question marker and an answer marker around the
    texts [x], [y] and [z]. *)
Definition qa_line (xyz : str * str * str) : str :=
  match xyz with
  | (x, y, z) => x ++ Qm ++ y ++ Am ++ z
  end.

(** Induction on a JSON value, with the property available for each
    element of a list and each value of a dict. *)
Fixpoint json_induction (P : json -> Prop)
    (Hs : forall s, P (JStr s))
    (Ha : forall l, Forall P l -> P (JArr l))
    (Ho : forall fs, Forall (fun kv => P (snd kv)) fs -> P (JObj fs))
    (v : json) {struct v} : P v :=
  match v with
  | JStr s => Hs s
  | JArr l =>
      Ha l ((fix all (l : list json) : Forall P l :=
               match l with
               | [] => Forall_nil P
               | x :: l' => Forall_cons x (@json_induction P Hs Ha Ho x) (all l')
               end) l)
  | JObj fs =>
      Ho fs ((fix all (fs : list (str * json)) : Forall (fun kv => P (snd kv)) fs :=
                match fs with
                | [] => Forall_nil _
                | kv :: fs' =>
                    Forall_cons kv (@json_induction P Hs Ha Ho (snd kv)) (all fs')
                end) fs)
  end.

(** No high surrogate stands directly before a low surrogate. *)
Fixpoint no_surrogate_pair (s : str) : bool :=
  match s with
  | [] => true
  | c :: r =>
      match r with
      | [] => true
      | c' :: _ =>
          negb (is_high_surrogate c && is_low_surrogate c')
          && no_surrogate_pair r
      end
  end.

(** A string of Python in which no two surrogates pair up. *)
Definition unpaired (s : str) : Prop :=
  forallb is_code_point s = true /\ no_surrogate_pair s = true.

(** Every dict inside a JSON value has unique keys, as a Python dict
    does, and every string and key is [unpaired]. *)
Fixpoint json_wf (v : json) : Prop :=
  match v with
  | JStr s => unpaired s
  | JArr elems => fold_right (fun x acc => json_wf x /\ acc) True elems
  | JObj fields =>
      NoDup (map fst fields)
      /\ fold_right
           (fun kv acc => match kv with (k, x) => unpaired k /\ json_wf x /\ acc end)
           True fields
  end.

(** The characters an encoded value can start with. *)
Definition opens_value (c : char) : Prop :=
  c = dquote \/ c = (ch "[") \/ c = (ch "{").

(** The encoded items of a list and of a dict, between the brackets. *)
Definition encode_items (level : nat) (elems : list json) : str :=
  join (item_separator level) (map (encode level) elems).

Definition encode_member (level : nat) (kv : str * json) : str :=
  match kv with
  | (k, x) => encode_string k ++ py ": " ++ encode level x
  end.

Definition encode_members (level : nat) (fields : list (str * json)) : str :=
  join (item_separator level) (map (encode_member level) fields).

(** The number of calls the decoder makes to read a value back. *)
Fixpoint jsize (v : json) : nat :=
  match v with
  | JStr _ => 1
  | JArr elems => S (fold_right (fun x acc => S (jsize x + acc)) 0 elems)
  | JObj fields =>
      S (fold_right (fun kv acc => match kv with (_, x) => S (jsize x + acc) end)
           0 fields)
  end.

Definition elems_size (elems : list json) : nat :=
  fold_right (fun x acc => S (jsize x + acc)) 0 elems.

Definition fields_size (fields : list (str * json)) : nat :=
  fold_right (fun kv acc => match kv with (_, x) => S (jsize x + acc) end) 0 fields.

Definition elems_wf (elems : list json) : Prop :=
  fold_right (fun x acc => json_wf x /\ acc) True elems.

Definition fields_wf (fields : list (str * json)) : Prop :=
  fold_right
    (fun kv acc => match kv with (k, x) => unpaired k /\ json_wf x /\ acc end)
    True fields.

(** Every string of a list of pairs is [unpaired]. *)
Definition unpaired_pairs (l : list (str * str)) : Prop :=
  Forall (fun kv => unpaired (fst kv) /\ unpaired (snd kv)) l.

(** The text after a [\uXXXX] starts with the [\uXXXX] of a low
    surrogate (or with a [\u] the scanner cannot read). *)
Definition low_escape_next (r : str) : bool :=
  match r with
  | b :: u :: l1 :: l2 :: l3 :: l4 :: _ =>
      N.eqb b backslash && N.eqb u (ch "u")
      && match hex4 l1 l2 l3 l4 with
         | Some uni2 => is_low_surrogate uni2
         | None => true
         end
  | _ => false
  end.

(* ===================================================================== *)
(** ** A scripted framework, to run the trainer and the interface on      *)
(* ===================================================================== *)

(** Tokens are the text itself, the model is a number, the framework has
    no state; generation echoes the prompt and continues it. *)
Definition toy_encode : str -> M unit str := fun s => ret s.
Definition toy_generate : nat -> str -> pyval -> pyval -> pyval -> M unit str :=
  fun _ ids _ _ _ => ret (ids ++ py " We open at nine. ").
Definition toy_decode : str -> M unit str := fun s => ret s.
Definition toy_to : nat -> str -> M unit unit := fun _ _ => ret tt.

(** Loading succeeds, or fails as for a missing checkpoint. *)
Definition toy_from_pretrained (found : bool) : path -> M unit nat :=
  fun _ =>
    if found then ret 1
    else of_result (Raise (mkExn (py "OSError") (py "checkpoint not found"))).

Definition toy_trainer := trainer unit nat.

Definition toy_load_model (found : bool) : path -> M toy_trainer unit :=
  load_model false (toy_from_pretrained found) toy_to.

(** The trainer's [generate_response], reading the settings from
    [GENERATION_CONFIG], or failing as the framework would. *)
Definition toy_generate_response (works : bool) : str -> M toy_trainer str :=
  fun question =>
    if works then
      generate_response_with toy_encode toy_generate toy_decode
        GENERATION_CONFIG question
    else of_result (Raise (mkExn (py "RuntimeError") (py "out of memory"))).

Definition toy_tokenize_data (works : bool) : list example -> M toy_trainer (list str) :=
  fun dataset =>
    if works then ret (map text dataset)
    else of_result (Raise (mkExn (py "ValueError") (py "tokenization failed"))).

Definition toy_train (works : bool) : list str -> M toy_trainer (nat * path) :=
  fun _ =>
    if works then ret (0, Div (MODELS_DIR (Path (py "/app"))) (py "fine_tuned"))
    else of_result (Raise (mkExn (py "RuntimeError") (py "out of memory"))).

(** [str(path)] for the paths of the script. *)
Fixpoint toy_path_str (p : path) : str :=
  match p with
  | Path s => s
  | Div q s => toy_path_str q ++ py "/" ++ s
  end.

(** A disk on which a file is named by the spelling of its path and
    every file holds an empty document; every file can be opened and
    written, or none can be opened, or none can be written past its
    first ten characters. *)
Definition toy_file_of (p : path) : N :=
  fold_left (fun h c => (h * 1114112 + c + 1)%N) (toy_path_str p) 0%N.

Inductive toy_disk := Writable | ReadOnly | Full.

Definition toy_files (d : toy_disk) : filesystem :=
  mkFs toy_file_of (fun _ => Some (py "{}"))
    (fun _ =>
       match d with
       | ReadOnly =>
           Some (mkExn (py "PermissionError") (py "read-only file system"))
       | _ => None
       end)
    (fun _ _ =>
       match d with
       | Full => Some (mkExn (py "OSError") (py "no space left on device"), 10)
       | _ => None
       end).

Definition toy_iface : iface toy_trainer :=
  mkIface (mkTrainer 0 tt) None (toy_files Writable) [].


(* ===================================================================== *)
(** ** chatbot/config/config.py: the training and logging tables          *)
(* ===================================================================== *)

(** [TRAINING_CONFIG] *)
Definition TRAINING_CONFIG : dict pyval :=
  [ (py "num_epochs", PInt 1);
    (py "batch_size", PInt 2);
    (py "learning_rate", PFloat 1 (-4));
    (py "warmup_steps", PInt 10);
    (py "max_grad_norm", PFloat 10 (-1));
    (py "max_length", PInt 128);
    (py "gradient_accumulation_steps", PInt 4) ].

(** The values of [LOGGING_CONFIG]: a path or a text. *)
Inductive logval :=
| LPath (p : path)
| LText (s : str).

Definition LOGS_DIR (ROOT_DIR : path) : path := Div ROOT_DIR (py "logs").

(** [LOGGING_CONFIG] *)
Definition LOGGING_CONFIG (ROOT_DIR : path) : dict logval :=
  [ (py "log_file", LPath (Div (LOGS_DIR ROOT_DIR) (py "chatbot.log")));
    (py "level", LText (py "INFO"));
    (py "rotation", LText (py "1 day"));
    (py "retention", LText (py "1 week")) ].

(* ===================================================================== *)
(** ** chatbot/models/trainer.py: [ChatbotTrainer.train]                  *)
(* ===================================================================== *)

(** The keyword arguments [train] passes to [TrainingArguments]. *)
Record training_arguments := mkTrainingArguments {
  output_dir : str;
  num_train_epochs : pyval;
  per_device_train_batch_size : pyval;
  learning_rate : pyval;
  warmup_steps : pyval;
  max_grad_norm : pyval;
  gradient_accumulation_steps : pyval;
  logging_dir : str;
  save_strategy : str;
  remove_unused_columns : bool;
  logging_steps : Z;
  use_mps_device : bool;
  fp16 : bool;
  optim : str;
  max_steps : Z
}.

Section ChatbotTrainerTrain.

(** The framework's training side: its state, the model, the tokenized
    dataset, the loss it reports, and the objects it builds. *)
Variables world model dataset loss hf_arguments hf_trainer : Type.
Variable mps_available : bool.
Variable ROOT_DIR : path.

(** [str(path)] *)
Variable path_str : path -> str.
(** [TrainingArguments(...)] *)
Variable TrainingArguments : training_arguments -> M world hf_arguments.
(** [Trainer(model=self.model, args=training_args, train_dataset=dataset,
    data_collator=...)] *)
Variable Trainer : model -> hf_arguments -> dataset -> M world hf_trainer.
(** [torch.mps.empty_cache()] *)
Variable empty_cache : M world unit.
(** [trainer.train().training_loss] *)
Variable trainer_train : hf_trainer -> M world loss.
(** [trainer.save_model()] *)
Variable save_model : hf_trainer -> M world unit.

Definition train (data : dataset) (output : option path)
  : M (trainer world model) (loss * path) :=
  let output :=
    match output with
    | None => Div (MODELS_DIR ROOT_DIR) (py "fine_tuned")
    | Some p => p
    end in
  let device := DEVICE mps_available in
  num_epochs <~ of_result (dict_index TRAINING_CONFIG (py "num_epochs")) ;;
  batch_size <~ of_result (dict_index TRAINING_CONFIG (py "batch_size")) ;;
  rate <~ of_result (dict_index TRAINING_CONFIG (py "learning_rate")) ;;
  warmup <~ of_result (dict_index TRAINING_CONFIG (py "warmup_steps")) ;;
  grad_norm <~ of_result (dict_index TRAINING_CONFIG (py "max_grad_norm")) ;;
  accumulation <~
    of_result (dict_index TRAINING_CONFIG (py "gradient_accumulation_steps")) ;;
  training_args <~ framework (TrainingArguments
    {| output_dir := path_str output;
       num_train_epochs := num_epochs;
       per_device_train_batch_size := batch_size;
       learning_rate := rate;
       warmup_steps := warmup;
       max_grad_norm := grad_norm;
       gradient_accumulation_steps := accumulation;
       logging_dir := path_str (Div output (py "logs"));
       save_strategy := py "no";
       remove_unused_columns := true;
       logging_steps := 1;
       use_mps_device := str_eqb device (py "mps");
       fp16 := false;
       optim := py "adamw_torch";
       max_steps := 50 |}) ;;
  tr <~ get ;;
  hf <~ framework (Trainer (tr_model tr) training_args data) ;;
  (if str_eqb device (py "mps") then framework empty_cache else ret tt) ;;;
  train_loss <~ framework (trainer_train hf) ;;
  framework (save_model hf) ;;;
  ret (train_loss, output).

End ChatbotTrainerTrain.

(* ===================================================================== *)
(** ** chatbot/utils/logger.py                                            *)
(* ===================================================================== *)

(** Where a handler of the logger writes. *)
Inductive sink :=
| Stdout
| FileSink (target : logval).

(** A handler as [logger.add] is given it. *)
Record handler := mkHandler {
  h_sink : sink;
  h_format : str;
  h_level : logval;
  h_rotation : option logval;
  h_retention : option logval
}.

Definition console_format : str :=
  py "<green>{time:YYYY-MM-DD HH:mm:ss}</green> | <level>{level: <8}</level> | <cyan>{name}</cyan>:<cyan>{function}</cyan>:<cyan>{line}</cyan> - <level>{message}</level>".

Definition file_format : str :=
  py "{time:YYYY-MM-DD HH:mm:ss} | {level: <8} | {name}:{function}:{line} - {message}".

Section Logger.

Variable ROOT_DIR : path.
(** The error [logger.add] raises for a file it cannot open. *)
Variable open_log_error : logval -> option exn.

(** [logger.remove()]: every handler goes. *)
Definition logger_remove : M (list handler) unit := modify (fun _ => []).

(** [logger.add(sink, ...)] *)
Definition logger_add (h : handler) : M (list handler) unit :=
  match h_sink h with
  | Stdout => modify (fun hs => hs ++ [h])
  | FileSink target =>
      match open_log_error target with
      | Some e => of_result (Raise e)
      | None => modify (fun hs => hs ++ [h])
      end
  end.

(** [setup_logger]: the state is the list of the logger's handlers; the
    [except] clause prints the error and raises it again. *)
Definition setup_logger (log_file : option path) : M (list handler) unit :=
  logger_remove ;;;
  level <~ of_result (dict_index (LOGGING_CONFIG ROOT_DIR) (py "level")) ;;
  logger_add (mkHandler Stdout console_format level None None) ;;;
  log_path <~
    match log_file with
    | Some p => ret (LPath p)
    | None => of_result (dict_index (LOGGING_CONFIG ROOT_DIR) (py "log_file"))
    end ;;
  rotation <~ of_result (dict_index (LOGGING_CONFIG ROOT_DIR) (py "rotation")) ;;
  retention <~ of_result (dict_index (LOGGING_CONFIG ROOT_DIR) (py "retention")) ;;
  level' <~ of_result (dict_index (LOGGING_CONFIG ROOT_DIR) (py "level")) ;;
  logger_add (mkHandler (FileSink log_path) file_format level'
                (Some rotation) (Some retention)).

End Logger.

(* ===================================================================== *)
(** ** A scripted training framework                                      *)
(* ===================================================================== *)

(** The calls made on the framework, which it records in order; a
    trainer object is the number of rows of its dataset, and the loss it
    reports is that number. *)
Inductive toy_call :=
| CallTrainingArguments (args : training_arguments)
| CallTrainer (m : nat)
| CallEmptyCache
| CallTrain
| CallSaveModel.

Definition toy_world := list toy_call.

Definition toy_record (c : toy_call) : M toy_world unit :=
  modify (fun w => w ++ [c]).

Definition toy_TrainingArguments : training_arguments -> M toy_world training_arguments :=
  fun args => toy_record (CallTrainingArguments args) ;;; ret args.

Definition toy_Trainer : nat -> training_arguments -> list str -> M toy_world nat :=
  fun m _ data => toy_record (CallTrainer m) ;;; ret (length data).

Definition toy_empty_cache : M toy_world unit := toy_record CallEmptyCache.

Definition toy_trainer_train (works : bool) : nat -> M toy_world nat :=
  fun hf =>
    toy_record CallTrain ;;;
    if works then ret hf
    else of_result (Raise (mkExn (py "RuntimeError") (py "out of memory"))).

Definition toy_save_model : nat -> M toy_world unit :=
  fun _ => toy_record CallSaveModel.

(** [ChatbotTrainer.train] on the scripted framework. *)
Definition toy_run_train (mps_available works : bool)
  : list str -> option path -> M (trainer toy_world nat) (nat * path) :=
  train mps_available (Path (py "/app")) toy_path_str
    toy_TrainingArguments toy_Trainer toy_empty_cache
    (toy_trainer_train works) toy_save_model.

(** Characters of a plain ASCII text file: printable, or a line break. *)
Definition is_plain_ascii (c : char) : bool :=
  (((32 <=? c) && (c <=? 126)) || (c =? 10))%N.

(* ===================================================================== *)
(** ** Facts about the string methods                                     *)
(* ===================================================================== *)

Unset Implicit Arguments.

Lemma str_eqb_eq (a b : str) : str_eqb a b = true <-> a = b.
Proof.
  unfold str_eqb. destruct (list_eq_dec N.eq_dec a b); split; congruence.
Qed.

Lemma str_eqb_refl (a : str) : str_eqb a a = true.
Proof. now apply str_eqb_eq. Qed.

Lemma str_eqb_neq (a b : str) : str_eqb a b = false <-> a <> b.
Proof.
  unfold str_eqb. destruct (list_eq_dec N.eq_dec a b); split; congruence.
Qed.

Lemma skipn_length_app {A} (l r : list A) : skipn (length l) (l ++ r) = r.
Proof. induction l; simpl; auto. Qed.

Lemma starts_with_app (p r : str) : starts_with p (p ++ r) = true.
Proof.
  induction p as [|a p IH]; simpl; auto.
  now rewrite N.eqb_refl, IH.
Qed.

Lemma starts_with_inv (p s : str) :
  starts_with p s = true -> exists r, s = p ++ r.
Proof.
  revert s. induction p as [|a p IH]; intros s H; simpl in *.
  - now exists s.
  - destruct s as [|b s]; [discriminate|].
    apply andb_true_iff in H as [Hab Hps].
    apply N.eqb_eq in Hab. subst b.
    destruct (IH _ Hps) as [r ->]. now exists r.
Qed.

Lemma starts_with_skipn (p s : str) :
  starts_with p s = true -> s = p ++ skipn (length p) s.
Proof.
  intros H. apply starts_with_inv in H as [r ->].
  now rewrite skipn_length_app.
Qed.

Lemma starts_with_long (p u v : str) :
  length p <= length u -> starts_with p (u ++ v) = starts_with p u.
Proof.
  revert u. induction p as [|a p IH]; intros u Hlen; simpl in *; auto.
  destruct u as [|b u]; simpl in *; [lia|].
  rewrite IH by lia. reflexivity.
Qed.

Lemma starts_with_nil_r (p : str) : p <> [] -> starts_with p [] = false.
Proof. destruct p; [congruence | reflexivity]. Qed.

Lemma contains_eq (sub s : str) :
  contains sub s =
  starts_with sub s || match s with [] => false | _ :: s' => contains sub s' end.
Proof. destruct s; reflexivity. Qed.

Lemma contains_intro (sub a b : str) : contains sub (a ++ sub ++ b) = true.
Proof.
  induction a as [|c a IH]; simpl app.
  - rewrite contains_eq, starts_with_app. reflexivity.
  - rewrite contains_eq, IH. apply orb_true_r.
Qed.

Lemma contains_elim (sub s : str) :
  contains sub s = true -> exists a b, s = a ++ sub ++ b.
Proof.
  induction s as [|c s IH]; rewrite contains_eq; intros H.
  - rewrite orb_false_r in H. apply starts_with_inv in H as [r ->].
    now exists [], r.
  - apply orb_true_iff in H as [H|H].
    + apply starts_with_inv in H as [r ->]. now exists [], r.
    + destruct (IH H) as (a & b & ->). now exists (c :: a), b.
Qed.

Lemma contains_false_infix (sub a s b : str) :
  contains sub (a ++ s ++ b) = false -> contains sub s = false.
Proof.
  intros H. destruct (contains sub s) eqn:E; auto.
  apply contains_elim in E as (x & y & ->).
  replace (a ++ (x ++ sub ++ y) ++ b) with ((a ++ x) ++ sub ++ (y ++ b)) in H
    by (now rewrite <- !app_assoc).
  now rewrite contains_intro in H.
Qed.

Lemma contains_false_app_l (sub a b : str) :
  contains sub (a ++ b) = false -> contains sub a = false.
Proof.
  intros H. apply (contains_false_infix sub [] a b). exact H.
Qed.

Lemma contains_false_app_r (sub a b : str) :
  contains sub (a ++ b) = false -> contains sub b = false.
Proof.
  intros H. apply (contains_false_infix sub a b []). now rewrite app_nil_r.
Qed.

Lemma partition_eq (sep s : str) :
  partition sep s =
  if starts_with sep s then Some ([], skipn (length sep) s)
  else match s with
       | [] => None
       | c :: s' =>
           match partition sep s' with
           | Some (b, a) => Some (c :: b, a)
           | None => None
           end
       end.
Proof. destruct s; reflexivity. Qed.

Lemma partition_nil (sep : str) : sep <> [] -> partition sep [] = None.
Proof. destruct sep; [congruence | reflexivity]. Qed.

Lemma partition_none (sep s : str) :
  partition sep s = None <-> contains sep s = false.
Proof.
  induction s as [|c s IH]; rewrite partition_eq, contains_eq;
    destruct (starts_with sep _); simpl; try (split; congruence).
  destruct (partition sep s) as [[b a]|]; rewrite <- IH; split; congruence.
Qed.

Lemma partition_some (sep s b a : str) :
  partition sep s = Some (b, a) -> s = b ++ sep ++ a.
Proof.
  revert b. induction s as [|c s IH]; intros b; rewrite partition_eq;
    destruct (starts_with sep _) eqn:E.
  - intros [= <- <-]. now apply starts_with_skipn.
  - discriminate.
  - intros [= <- <-]. now apply starts_with_skipn.
  - destruct (partition sep s) as [[b' a']|]; [|discriminate].
    intros [= <- <-]. simpl. f_equal. now apply IH.
Qed.

(** [partition] cuts at an occurrence before which no occurrence starts. *)
Lemma partition_first (sep b a : str) :
  contains sep (b ++ removelast sep) = false ->
  partition sep (b ++ sep ++ a) = Some (b, a).
Proof.
  induction b as [|c b IH]; intros H.
  - simpl app. rewrite partition_eq, starts_with_app, skipn_length_app.
    reflexivity.
  - assert (Hsep : sep <> []).
    { intros ->. now rewrite contains_eq in H. }
    rewrite contains_eq in H. simpl app in H.
    apply orb_false_iff in H as [Hs Hc].
    simpl app. rewrite partition_eq.
    assert (E : starts_with sep (c :: b ++ sep ++ a) = false).
    { rewrite (app_removelast_last (l:=sep) 0%N Hsep) at 2.
      rewrite <- app_assoc.
      change (c :: b ++ removelast sep ++ [last sep 0%N] ++ a)
        with ((c :: b) ++ removelast sep ++ [last sep 0%N] ++ a).
      rewrite app_assoc, starts_with_long; [exact Hs|].
      rewrite length_app. simpl.
      pose proof (f_equal (@length char) (app_removelast_last (l:=sep) 0%N Hsep)) as L.
      rewrite length_app in L. simpl in L. lia. }
    rewrite E, (IH Hc). reflexivity.
Qed.

Lemma partition_shorter (sep s b a : str) :
  sep <> [] -> partition sep s = Some (b, a) -> length a < length s.
Proof.
  intros Hsep H. apply partition_some in H. subst s.
  rewrite !length_app. destruct sep; [congruence|]. simpl. lia.
Qed.

Lemma split_fuel_enough (sep : str) :
  sep <> [] ->
  forall n m s, length s <= n -> length s <= m ->
    split_fuel n sep s = split_fuel m sep s.
Proof.
  intros Hsep. induction n as [|n IH]; intros m s Hn Hm.
  - destruct s; [|simpl in Hn; lia].
    destruct m; cbn [split_fuel]; auto. now rewrite partition_nil.
  - destruct m as [|m].
    + destruct s; [|simpl in Hm; lia]. cbn [split_fuel].
      now rewrite partition_nil.
    + cbn [split_fuel]. destruct (partition sep s) as [[b a]|] eqn:E; auto.
      pose proof (partition_shorter _ _ _ _ Hsep E). f_equal. apply IH; lia.
Qed.

(** [split] cuts at the first occurrence and goes on with the rest. *)
Lemma split_eq (sep s : str) :
  sep <> [] ->
  split sep s =
  match partition sep s with
  | None => [s]
  | Some (b, a) => b :: split sep a
  end.
Proof.
  intros Hsep. unfold split. destruct s as [|c s].
  - cbn [length split_fuel]. now rewrite partition_nil.
  - cbn [length split_fuel].
    destruct (partition sep (c :: s)) as [[b a]|] eqn:E; auto.
    pose proof (partition_shorter _ _ _ _ Hsep E) as L. simpl in L.
    f_equal. apply split_fuel_enough; auto; lia.
Qed.

Lemma split_none (sep s : str) :
  sep <> [] -> contains sep s = false -> split sep s = [s].
Proof.
  intros Hsep H. rewrite split_eq by auto.
  apply partition_none in H. now rewrite H.
Qed.

Lemma split_first (sep b a : str) :
  sep <> [] -> contains sep (b ++ removelast sep) = false ->
  split sep (b ++ sep ++ a) = b :: split sep a.
Proof.
  intros Hsep H. rewrite split_eq by auto. now rewrite partition_first.
Qed.

(** Splitting what [join] built gives the fields back, when no
    separator starts inside a field. *)
Lemma split_join (sep : str) (fields : list str) :
  sep <> [] -> fields <> [] ->
  Forall (fun f => contains sep (f ++ removelast sep) = false) fields ->
  split sep (join sep fields) = fields.
Proof.
  intros Hsep Hne H. revert Hne.
  induction H as [|f fields Hf _ IH]; intros Hne; [now elim Hne|].
  destruct fields as [|g fields].
  - cbn [join]. apply split_none; auto.
    now apply contains_false_app_l in Hf.
  - change (join sep (f :: g :: fields)) with (f ++ sep ++ join sep (g :: fields)).
    rewrite split_first by auto. f_equal. apply IH. discriminate.
Qed.

Lemma replace_fuel_enough (old new : str) :
  old <> [] ->
  forall n m s, length s <= n -> length s <= m ->
    replace_fuel n old new s = replace_fuel m old new s.
Proof.
  intros Hold. induction n as [|n IH]; intros m s Hn Hm.
  - destruct s; [|simpl in Hn; lia].
    destruct m; cbn [replace_fuel]; auto. now rewrite partition_nil.
  - destruct m as [|m].
    + destruct s; [|simpl in Hm; lia]. cbn [replace_fuel].
      now rewrite partition_nil.
    + cbn [replace_fuel]. destruct (partition old s) as [[b a]|] eqn:E; auto.
      pose proof (partition_shorter _ _ _ _ Hold E). do 2 f_equal. apply IH; lia.
Qed.

Lemma replace_eq (old new s : str) :
  old <> [] ->
  replace old new s =
  match partition old s with
  | None => s
  | Some (b, a) => b ++ new ++ replace old new a
  end.
Proof.
  intros Hold. unfold replace. destruct s as [|c s].
  - cbn [length replace_fuel]. now rewrite partition_nil.
  - cbn [length replace_fuel].
    destruct (partition old (c :: s)) as [[b a]|] eqn:E; auto.
    pose proof (partition_shorter _ _ _ _ Hold E) as L. simpl in L.
    do 2 f_equal. apply replace_fuel_enough; auto; lia.
Qed.

Lemma replace_none (old new s : str) :
  old <> [] -> contains old s = false -> replace old new s = s.
Proof.
  intros Hold H. rewrite replace_eq by auto.
  apply partition_none in H. now rewrite H.
Qed.

Lemma replace_first (old new b a : str) :
  old <> [] -> contains old (b ++ removelast old) = false ->
  replace old new (b ++ old ++ a) = b ++ new ++ replace old new a.
Proof.
  intros Hold H. rewrite replace_eq by auto. now rewrite partition_first.
Qed.

Lemma lstrip_decomp (s : str) :
  exists a, s = a ++ lstrip s /\ forallb is_space a = true.
Proof.
  induction s as [|c s (a & Ha & Hs)]; simpl.
  - now exists [].
  - destruct (is_space c) eqn:E.
    + exists (c :: a). simpl. rewrite E, Hs. split; [now f_equal | reflexivity].
    + now exists [].
Qed.

Lemma lstrip_starts_clean (s : str) : starts_clean (lstrip s) = true.
Proof.
  induction s as [|c s IH]; simpl; auto.
  destruct (is_space c) eqn:E; auto. simpl. now rewrite E.
Qed.

Lemma lstrip_fixed (s : str) : starts_clean s = true -> lstrip s = s.
Proof.
  destruct s as [|c s]; simpl; auto.
  intros H. apply negb_true_iff in H. now rewrite H.
Qed.

(** [strip] removes a prefix and a suffix. *)
Lemma strip_decomp (s : str) : exists a b, s = a ++ strip s ++ b.
Proof.
  destruct (lstrip_decomp s) as (a & Ha & _).
  destruct (lstrip_decomp (rev (lstrip s))) as (b & Hb & _).
  exists a, (rev b). unfold strip, rstrip.
  rewrite <- rev_app_distr, <- Hb, rev_involutive. exact Ha.
Qed.

Lemma contains_strip (sub s : str) :
  contains sub s = false -> contains sub (strip s) = false.
Proof.
  intros H. destruct (strip_decomp s) as (a & b & E).
  rewrite E in H. now apply contains_false_infix in H.
Qed.

Lemma trimmed_strip (s : str) : trimmed (strip s) = true.
Proof.
  unfold trimmed, strip, rstrip. rewrite rev_involutive.
  rewrite lstrip_starts_clean, andb_true_r.
  destruct (lstrip_decomp (rev (lstrip s))) as (b & Hb & _).
  pose proof (lstrip_starts_clean s) as Hc.
  apply (f_equal (@rev char)) in Hb.
  rewrite rev_involutive, rev_app_distr in Hb.
  destruct (rev (lstrip (rev (lstrip s)))) as [|c r]; auto.
  rewrite Hb in Hc. exact Hc.
Qed.

Lemma strip_fixed (s : str) : trimmed s = true -> strip s = s.
Proof.
  unfold trimmed, strip, rstrip. intros H.
  apply andb_true_iff in H as [H1 H2].
  rewrite (lstrip_fixed _ H1), (lstrip_fixed _ H2). apply rev_involutive.
Qed.

Lemma starts_with_head_ne (a c : char) (p s : str) :
  N.eqb a c = false -> starts_with (a :: p) (c :: s) = false.
Proof. intros H. simpl. now rewrite H. Qed.

(** Occurrences of a marker of two different characters. *)
Lemma contains2_snoc (c1 c2 : char) (b : str) :
  c1 <> c2 -> contains [c1; c2] b = false ->
  contains [c1; c2] (b ++ [c1]) = false.
Proof.
  intros Hne. apply N.eqb_neq in Hne. rewrite N.eqb_sym in Hne.
  induction b as [|c b IH]; intros H.
  - simpl. now rewrite andb_false_r.
  - rewrite contains_eq in H. apply orb_false_iff in H as [Hs Hc].
    simpl app. rewrite contains_eq, (IH Hc), orb_false_r.
    destruct b as [|d b]; simpl in *.
    + now rewrite Hne, andb_false_r.
    + exact Hs.
Qed.

Lemma contains2_around (a1 a2 q1 q2 : char) (x y : str) :
  a1 <> q1 -> a1 <> q2 -> a2 <> q1 ->
  contains [a1; a2] x = false -> contains [a1; a2] y = false ->
  contains [a1; a2] (x ++ [q1; q2] ++ y) = false.
Proof.
  intros H1 H2 H3 Hx Hy.
  apply N.eqb_neq in H1, H2, H3.
  induction x as [|c x IH].
  - simpl app. rewrite contains_eq, (starts_with_head_ne _ _ _ _ H1).
    rewrite contains_eq, (starts_with_head_ne _ _ _ _ H2). exact Hy.
  - rewrite contains_eq in Hx. apply orb_false_iff in Hx as [Hs Hc].
    simpl app. rewrite contains_eq. change (x ++ q1 :: q2 :: y) with (x ++ [q1; q2] ++ y).
    rewrite (IH Hc), orb_false_r.
    destruct x as [|d x]; simpl in *.
    + now rewrite H3, andb_false_r.
    + exact Hs.
Qed.

Lemma Qm_nonempty : Qm <> [].
Proof. discriminate. Qed.

Lemma Am_nonempty : Am <> [].
Proof. discriminate. Qed.

Lemma Am_snoc (b : str) :
  contains Am b = false -> contains Am (b ++ removelast Am) = false.
Proof. apply contains2_snoc. discriminate. Qed.

Lemma Qm_snoc (b : str) :
  contains Qm b = false -> contains Qm (b ++ removelast Qm) = false.
Proof. apply contains2_snoc. discriminate. Qed.

Lemma Am_around_Qm (x y : str) :
  contains Am x = false -> contains Am y = false ->
  contains Am (x ++ Qm ++ y) = false.
Proof. apply contains2_around; discriminate. Qed.

Lemma no_marker_inv (s : str) :
  no_marker s = true -> contains Qm s = false /\ contains Am s = false.
Proof.
  unfold no_marker. intros H. apply andb_true_iff in H as [H1 H2].
  now apply negb_true_iff in H1, H2.
Qed.

Lemma no_marker_strip (s : str) : no_marker s = true -> no_marker (strip s) = true.
Proof.
  intros H. apply no_marker_inv in H as [H1 H2]. unfold no_marker.
  now rewrite (contains_strip _ _ H1), (contains_strip _ _ H2).
Qed.

(** Indexing a list inside its bounds. *)
Lemma getitem_nth {A} (l : list A) (i : nat) (d : A) :
  i < length l -> getitem l (Z.of_nat i) = Ok (nth i l d).
Proof.
  intros H. unfold getitem.
  destruct (Z.ltb_spec (Z.of_nat i) 0); [lia|].
  destruct (Z.leb_spec 0 (Z.of_nat i)); [|lia].
  destruct (Z.ltb_spec (Z.of_nat i) (Z.of_nat (length l))); [|lia].
  simpl. rewrite Nat2Z.id.
  destruct (nth_error l i) eqn:E.
  - now rewrite (nth_error_nth _ _ d E).
  - apply nth_error_None in E. lia.
Qed.

Lemma getitem_0 {A} (l : list A) (d : A) :
  1 <= length l -> getitem l 0 = Ok (nth 0 l d).
Proof. intros H. now apply (getitem_nth l 0 d). Qed.

Lemma getitem_1 {A} (l : list A) (d : A) :
  2 <= length l -> getitem l 1 = Ok (nth 1 l d).
Proof. intros H. now apply (getitem_nth l 1 d). Qed.

Lemma getitem_last {A} (l : list A) (d : A) :
  l <> [] -> getitem l (-1) = Ok (last l d).
Proof.
  intros H. destruct (exists_last H) as (l' & x & ->).
  rewrite last_last. unfold getitem. rewrite length_app. simpl length.
  change (-1 <? 0)%Z with true. cbv iota.
  replace (Z.of_nat (length l' + 1) + -1)%Z with (Z.of_nat (length l')) by lia.
  destruct (Z.leb_spec 0 (Z.of_nat (length l'))); [|lia].
  destruct (Z.ltb_spec (Z.of_nat (length l')) (Z.of_nat (length l' + 1))); [|lia].
  simpl. rewrite Nat2Z.id, nth_error_app2, Nat.sub_diag by lia. reflexivity.
Qed.

Lemma split_nonempty (sep s : str) : sep <> [] -> split sep s <> [].
Proof.
  intros Hsep. rewrite split_eq by auto.
  destruct (partition sep s) as [[b a]|]; discriminate.
Qed.

Lemma split_two (sep s : str) :
  sep <> [] -> contains sep s = true -> 2 <= length (split sep s).
Proof.
  intros Hsep H. rewrite split_eq by auto.
  destruct (partition sep s) as [[b a]|] eqn:E.
  - pose proof (split_nonempty sep a Hsep).
    destruct (split sep a); [congruence | simpl; lia].
  - apply partition_none in E. congruence.
Qed.

Lemma contains_short (sub s : str) :
  length s < length sub -> contains sub s = false.
Proof.
  intros H. destruct (contains sub s) eqn:E; auto.
  apply contains_elim in E as (a & b & ->).
  rewrite !length_app in H. lia.
Qed.

Lemma removelast_length {A} (l : list A) :
  l <> [] -> S (length (removelast l)) = length l.
Proof.
  intros H. destruct (exists_last H) as (l' & x & ->).
  rewrite removelast_last, length_app. simpl. lia.
Qed.

(** No separator starts before the cut [partition] makes. *)
Lemma partition_some_first (sep s b a : str) :
  sep <> [] -> partition sep s = Some (b, a) ->
  contains sep (b ++ removelast sep) = false.
Proof.
  intros Hsep. revert b. induction s as [|c s IH]; intros b;
    rewrite partition_eq; destruct (starts_with sep _) eqn:E.
  - intros [= <- <-]. apply contains_short.
    pose proof (removelast_length sep Hsep). simpl. lia.
  - discriminate.
  - intros [= <- <-]. apply contains_short.
    pose proof (removelast_length sep Hsep). simpl. lia.
  - destruct (partition sep s) as [[b' a']|] eqn:P; [|discriminate].
    intros [= <- <-]. pose proof (partition_some _ _ _ _ P) as Hs.
    simpl app. rewrite contains_eq, (IH b' eq_refl), orb_false_r.
    assert (Hcut : c :: s
                   = (c :: b' ++ removelast sep) ++ [last sep 0%N] ++ a').
    { rewrite Hs. simpl. f_equal. rewrite <- app_assoc. f_equal.
      change (last sep 0%N :: a') with ([last sep 0%N] ++ a').
      rewrite app_assoc. f_equal. now apply app_removelast_last. }
    rewrite Hcut, starts_with_long in E; [exact E|].
    simpl. rewrite length_app.
    pose proof (removelast_length sep Hsep). lia.
Qed.

(* ===================================================================== *)
(** ** [parse_faq_input]                                                  *)
(* ===================================================================== *)

(** The loop appends one pair for each candidate line, in order, and
    raises nothing. *)
Lemma parse_lines_spec (lines : list str) (acc : list qa_pair) :
  parse_lines lines acc = Ok (acc ++ map line_pair (filter candidate lines)).
Proof.
  revert acc. induction lines as [|line rest IH]; intros acc;
    cbn [parse_lines filter].
  - simpl. now rewrite app_nil_r.
  - fold (candidate line). destruct (candidate line) eqn:E; [|apply IH].
    unfold candidate in E. apply andb_true_iff in E as [_ EA].
    pose proof (split_two Am line Am_nonempty EA) as L.
    rewrite (getitem_0 (split Am line) []) by lia.
    rewrite (getitem_1 (split Am line) []) by lia.
    cbn [bind]. rewrite IH. cbn [map]. now rewrite <- app_assoc.
Qed.

Lemma parse_faq_input_spec (raw : str) :
  parse_faq_input raw = Ok (map line_pair (filter candidate (input_lines raw))).
Proof. unfold parse_faq_input, try_log_reraise. now rewrite parse_lines_spec. Qed.

(** The two fields a line is cut into at its first answer marker. *)
Lemma split_Am_cut (pre mid tail : str) :
  contains Am pre = false -> contains Am mid = false ->
  tail = [] \/ starts_with Am tail = true ->
  exists more, split Am (pre ++ Am ++ mid ++ tail) = pre :: mid :: more.
Proof.
  intros Hpre Hmid Htail.
  rewrite split_first by auto using Am_nonempty, Am_snoc.
  destruct Htail as [->|H].
  - rewrite app_nil_r, split_none by auto using Am_nonempty. now exists [].
  - apply starts_with_inv in H as [r ->].
    rewrite split_first by auto using Am_nonempty, Am_snoc.
    now exists (split Am r).
Qed.

Lemma line_pair_cut (pre mid tail : str) :
  contains Am pre = false -> contains Am mid = false ->
  tail = [] \/ starts_with Am tail = true ->
  line_pair (pre ++ Am ++ mid ++ tail) = (strip (replace Qm [] pre), strip mid).
Proof.
  intros Hpre Hmid Htail.
  destruct (split_Am_cut pre mid tail Hpre Hmid Htail) as [more E].
  unfold line_pair. now rewrite E.
Qed.

Lemma qa_line_candidate (x y z : str) : candidate (qa_line (x, y, z)) = true.
Proof.
  unfold candidate, qa_line. rewrite contains_intro.
  replace (x ++ Qm ++ y ++ Am ++ z) with ((x ++ Qm ++ y) ++ Am ++ z)
    by (now rewrite <- !app_assoc).
  now rewrite contains_intro.
Qed.

Lemma qa_line_pair (x y z : str) :
  no_marker (x ++ y) = true -> no_marker z = true ->
  line_pair (qa_line (x, y, z)) = (strip (x ++ y), strip z).
Proof.
  intros Hxy Hz.
  apply no_marker_inv in Hxy as [HQ HA]. apply no_marker_inv in Hz as [_ HzA].
  pose proof (contains_false_app_l _ _ _ HQ) as HQx.
  pose proof (contains_false_app_r _ _ _ HQ) as HQy.
  pose proof (contains_false_app_l _ _ _ HA) as HAx.
  pose proof (contains_false_app_r _ _ _ HA) as HAy.
  unfold qa_line.
  replace (x ++ Qm ++ y ++ Am ++ z) with ((x ++ Qm ++ y) ++ Am ++ z ++ [])
    by (now rewrite app_nil_r, <- !app_assoc).
  rewrite line_pair_cut; auto using Am_around_Qm.
  rewrite replace_first by auto using Qm_nonempty, Qm_snoc.
  rewrite replace_none by auto using Qm_nonempty. reflexivity.
Qed.

(** Occurrences counted in a text are at least those of its two parts. *)
Lemma count_sub_app (sub u v : str) :
  sub <> [] -> count_sub sub u + count_sub sub v <= count_sub sub (u ++ v).
Proof.
  intros Hsub. induction u as [|c u IH].
  - cbn [count_sub app]. rewrite starts_with_nil_r by assumption. lia.
  - cbn [count_sub app].
    destruct (starts_with sub (c :: u)) eqn:E.
    + apply starts_with_inv in E as [r E].
      assert (E' : starts_with sub (c :: u ++ v) = true).
      { change (c :: u ++ v) with ((c :: u) ++ v).
        rewrite E, <- app_assoc. apply starts_with_app. }
      rewrite E'. lia.
    + destruct (starts_with sub (c :: u ++ v)); lia.
Qed.

Lemma count_sub_zero (sub s : str) : count_sub sub s = 0 -> contains sub s = false.
Proof.
  induction s as [|c s IH]; rewrite contains_eq; cbn [count_sub];
    destruct (starts_with sub _); simpl; try lia; auto.
Qed.

Lemma count_sub_self (sub r : str) : 1 <= count_sub sub (sub ++ r).
Proof.
  destruct (sub ++ r) eqn:E; cbn [count_sub];
    rewrite <- E, starts_with_app; lia.
Qed.

(** A single occurrence has none before it and none after it. *)
Lemma count_sub_once (sub u v : str) :
  sub <> [] -> count_sub sub (u ++ sub ++ v) = 1 ->
  contains sub u = false /\ contains sub v = false.
Proof.
  intros Hsub H.
  pose proof (count_sub_app sub u (sub ++ v) Hsub) as H1.
  pose proof (count_sub_app sub sub v Hsub) as H2.
  pose proof (count_sub_self sub v) as H3.
  pose proof (count_sub_self sub []) as H4. rewrite app_nil_r in H4.
  split; apply count_sub_zero; lia.
Qed.

Lemma contains_after_spaces (m : char) (sub ws s : str) :
  is_space m = false -> forallb is_space ws = true ->
  contains (m :: sub) (ws ++ s) = contains (m :: sub) s.
Proof.
  intros Hm. induction ws as [|c ws IH]; intros H; [reflexivity|].
  cbn [forallb] in H. apply andb_true_iff in H as [Hc Hws].
  cbn [app]. rewrite contains_eq, (IH Hws).
  rewrite starts_with_head_ne; [reflexivity|].
  apply N.eqb_neq. congruence.
Qed.

(** The lines [Q: question A: answer], possibly indented, that hold each
    marker once are among those the amended C1 covers. *)
Remark counted_line_well_formed (ws y z : str) :
  forallb is_space ws = true ->
  count_sub Qm (qa_line (ws, y, z)) = 1 ->
  count_sub Am (qa_line (ws, y, z)) = 1 ->
  no_marker (ws ++ y) = true /\ no_marker z = true.
Proof.
  unfold qa_line. intros Hws HQ HA.
  destruct (count_sub_once Qm ws (y ++ Am ++ z) Qm_nonempty HQ) as [_ HQr].
  pose proof (contains_false_app_l _ _ _ HQr) as HQy.
  pose proof (contains_false_app_r _ _ _ (contains_false_app_r _ _ _ HQr)) as HQz.
  replace (ws ++ Qm ++ y ++ Am ++ z) with ((ws ++ Qm ++ y) ++ Am ++ z) in HA
    by (now rewrite <- !app_assoc).
  destruct (count_sub_once Am _ z Am_nonempty HA) as [HAl HAz].
  pose proof (contains_false_app_r _ _ _ (contains_false_app_r _ _ _ HAl)) as HAy.
  assert (EQ : contains Qm (ws ++ y) = contains Qm y)
    by exact (contains_after_spaces (ch "Q") [(ch ":")] ws y eq_refl Hws).
  assert (EA : contains Am (ws ++ y) = contains Am y)
    by exact (contains_after_spaces (ch "A") [(ch ":")] ws y eq_refl Hws).
  unfold no_marker. now rewrite EQ, EA, HQy, HAy, HQz, HAz.
Qed.

(** C1, the claim as stated fails: the line [QQ:: A: x] holds exactly one
    question marker (at position 1) followed by exactly one answer marker
    (at position 5), and the question parsed from it is [Q:], which
    contains the question marker: deleting the marker joined the
    characters around it into a new one. *)
Lemma parse_faq_input_marker_rejoined :
  count_sub Qm (py "QQ:: A: x") = 1 /\
  count_sub Am (py "QQ:: A: x") = 1 /\
  find Qm (py "QQ:: A: x") = Some 1 /\
  find Am (py "QQ:: A: x") = Some 5 /\
  input_lines (py "QQ:: A: x") = [py "QQ:: A: x"] /\
  parse_faq_input (py "QQ:: A: x") = Ok [(py "Q:", py "x")] /\
  contains Qm (py "Q:") = true.
Proof. repeat split; vm_compute; reflexivity. Qed.

(** C1, amended: when the stripped input is made of lines
    [x Q: y A: z], joined by line breaks, where neither marker occurs
    in [x ++ y] (the text left once the question marker is deleted) nor
    in [z], [parse_faq_input] returns one pair per line, in line order:
    the pair [(strip (x ++ y), strip z)]; every question and answer is
    free of surrounding whitespace and of both markers.  The scenario of
    the specification yields its two pairs. *)
Theorem parse_faq_input_well_formed (raw : str) (parts : list (str * str * str)) :
  strip raw = join nl (map qa_line parts) ->
  Forall (fun xyz => contains nl (qa_line xyz) = false
                     /\ no_marker (fst (fst xyz) ++ snd (fst xyz)) = true
                     /\ no_marker (snd xyz) = true) parts ->
  exists pairs,
    parse_faq_input raw = Ok pairs
    /\ pairs = map (fun xyz => (strip (fst (fst xyz) ++ snd (fst xyz)),
                                strip (snd xyz))) parts
    /\ length pairs = length parts
    /\ Forall (fun qa => trimmed (fst qa) = true /\ trimmed (snd qa) = true
                         /\ no_marker (fst qa) = true
                         /\ no_marker (snd qa) = true) pairs
    /\ parse_faq_input
         (py "Q: What are your hours? A: 9 to 5" ++ nl ++ py "random line"
          ++ nl ++ py "Q: Open Sundays? A: No")
       = Ok [ (py "What are your hours?", py "9 to 5");
              (py "Open Sundays?", py "No") ].
Proof.
  intros Hraw Hparts. eexists. split; [|split; [reflexivity|]].
  - rewrite parse_faq_input_spec. unfold input_lines. rewrite Hraw. f_equal.
    destruct parts as [|p parts]; [reflexivity|].
    rewrite split_join.
    + clear Hraw. induction Hparts as [|[[x y] z] l (_ & Hxy & Hz) _ IH]; auto.
      cbn [map filter]. rewrite qa_line_candidate. cbn [map fst snd] in *.
      rewrite qa_line_pair by assumption. now f_equal.
    + discriminate.
    + discriminate.
    + apply Forall_map. eapply Forall_impl; [|exact Hparts].
      intros xyz (H & _). cbn [removelast nl]. now rewrite app_nil_r.
  - split; [now rewrite length_map|]. split; [|vm_compute; reflexivity].
    clear Hraw. induction Hparts as [|[[x y] z] l (_ & Hxy & Hz) _ IH];
      cbn [map]; constructor; auto.
    cbn [fst snd] in *. rewrite !trimmed_strip.
    now rewrite (no_marker_strip _ Hxy), (no_marker_strip _ Hz).
Qed.

Lemma parse_faq_input_well_formed_example :
  exists pairs,
    parse_faq_input (py "Q: Open? A: Yes" ++ nl ++ py " Q: Where? A: Here ")
    = Ok pairs
    /\ pairs = [(py "Open?", py "Yes"); (py "Where?", py "Here")].
Proof.
  destruct (parse_faq_input_well_formed
              (py "Q: Open? A: Yes" ++ nl ++ py " Q: Where? A: Here ")
              [ ([], py " Open? ", py " Yes"); (py " ", py " Where? ", py " Here") ])
    as (pairs & H1 & H2 & _).
  - vm_compute. reflexivity.
  - repeat constructor.
  - exists pairs. split; [exact H1|]. rewrite H2. vm_compute. reflexivity.
Defined.

(** C6, the claim as stated fails: the line [Q: A:] is a candidate whose
    question part and answer part are both empty after trimming, and it
    is kept: the result holds the pair of two empty strings. *)
Lemma parse_faq_input_keeps_empty :
  candidate (py "Q: A:") = true /\
  parse_faq_input (py "Q: A:") = Ok [([], [])].
Proof. split; vm_compute; reflexivity. Qed.

(** C6, amended: for every raw input text, [parse_faq_input] returns one
    pair for every candidate line and drops none, whether or not a part
    is empty: as many pairs as candidate lines, the pair of each
    candidate line among them; each question and answer is trimmed of
    surrounding whitespace and may be empty. *)
Theorem parse_faq_input_drops_nothing (raw : str) :
  exists pairs,
    parse_faq_input raw = Ok pairs
    /\ length pairs = length (filter candidate (input_lines raw))
    /\ (forall line,
          In line (input_lines raw) -> candidate line = true ->
          In (line_pair line) pairs)
    /\ Forall (fun qa => trimmed (fst qa) = true /\ trimmed (snd qa) = true) pairs.
Proof.
  eexists. split; [apply parse_faq_input_spec|]. split; [apply length_map|].
  split.
  - intros line Hin Hc. apply in_map, filter_In. now split.
  - apply Forall_map, Forall_forall. intros line _. unfold line_pair.
    cbn [fst snd]. now rewrite !trimmed_strip.
Qed.

(** C7, the claim as stated fails: in [Q: x A: y A: z] the text after the
    first answer marker is [ y A: z], which trimmed is [y A: z]; the
    answer the parser returns is [y], the text up to the second marker. *)
Lemma parse_faq_input_answer_cut :
  partition Am (py "Q: x A: y A: z") = Some (py "Q: x ", py " y A: z") /\
  strip (py " y A: z") = py "y A: z" /\
  parse_faq_input (py "Q: x A: y A: z") = Ok [(py "x", py "y")] /\
  py "y" <> py "y A: z".
Proof. repeat split; try (vm_compute; reflexivity). discriminate. Qed.

(** A line that holds the answer marker is cut at its first one, and
    what follows is cut at the next one, if any. *)
Lemma answer_marker_cut (line : str) :
  contains Am line = true ->
  exists pre mid tail,
    line = pre ++ Am ++ mid ++ tail
    /\ contains Am pre = false /\ contains Am mid = false
    /\ (tail = [] \/ starts_with Am tail = true).
Proof.
  intros H.
  destruct (partition Am line) as [[pre rest]|] eqn:P.
  2:{ apply partition_none in P. congruence. }
  pose proof (partition_some_first _ _ _ _ Am_nonempty P) as Hpre.
  apply contains_false_app_l in Hpre.
  apply partition_some in P. subst line.
  destruct (partition Am rest) as [[mid more]|] eqn:R.
  - pose proof (partition_some_first _ _ _ _ Am_nonempty R) as Hmid.
    apply contains_false_app_l in Hmid.
    apply partition_some in R. subst rest.
    exists pre, mid, (Am ++ more).
    split; [reflexivity|]. split; [exact Hpre|]. split; [exact Hmid|].
    right. apply starts_with_app.
  - apply partition_none in R.
    exists pre, rest, []. rewrite app_nil_r.
    split; [reflexivity|]. split; [exact Hpre|]. split; [exact R|]. now left.
Qed.

Lemma Forall2_map_filter {A B} (R : A -> B -> Prop) (p : A -> bool)
    (f : A -> B) (l : list A) :
  (forall x, p x = true -> R x (f x)) ->
  Forall2 R (filter p l) (map f (filter p l)).
Proof.
  intros H. induction l as [|x l IH]; cbn [filter]; [constructor|].
  destruct (p x) eqn:E; [|exact IH].
  cbn [map]. constructor; [now apply H | exact IH].
Qed.

(** C7, amended: the lines that lack either marker are skipped without
    error (the text [no markers here] parses to the empty sequence) and
    each line with both markers gives one pair, in line order; such a
    line is cut at its first [A:]: the text before it, with every [Q:]
    deleted and trimmed, is the question, and the text between the first
    [A:] and the next [A:] (the end of the line when there is none),
    trimmed, is the answer. *)
Theorem parse_faq_input_by_line (raw : str) :
  exists pairs,
    parse_faq_input raw = Ok pairs
    /\ Forall2
         (fun line qa =>
            (exists pre mid tail,
               line = pre ++ Am ++ mid ++ tail
               /\ contains Am pre = false /\ contains Am mid = false
               /\ (tail = [] \/ starts_with Am tail = true))
            /\ (forall pre mid tail,
                  line = pre ++ Am ++ mid ++ tail ->
                  contains Am pre = false -> contains Am mid = false ->
                  tail = [] \/ starts_with Am tail = true ->
                  qa = (strip (replace Qm [] pre), strip mid)))
         (filter (fun line => contains Qm line && contains Am line)
            (input_lines raw))
         pairs
    /\ parse_faq_input (py "no markers here") = Ok [].
Proof.
  eexists. split; [apply parse_faq_input_spec|].
  split; [|vm_compute; reflexivity].
  apply (Forall2_map_filter _ candidate line_pair). intros line C.
  unfold candidate in C. apply andb_true_iff in C as [_ HA]. split.
  - now apply answer_marker_cut.
  - intros pre mid tail -> Hpre Hmid Htail. now apply line_pair_cut.
Qed.

(* ===================================================================== *)
(** ** [prepare_training_data]                                            *)
(* ===================================================================== *)

Lemma build_examples_spec (pairs : list qa_pair) (acc : list example) :
  build_examples pairs acc
  = acc ++ map (fun qa => mkExample (format_example qa)) pairs.
Proof.
  revert acc. induction pairs as [|qa pairs IH]; intros acc; simpl.
  - now rewrite app_nil_r.
  - rewrite IH, <- app_assoc. reflexivity.
Qed.

Lemma map_fst_snd_id (l : list qa_pair) : map (fun qa => (fst qa, snd qa)) l = l.
Proof.
  induction l as [|[q a] l IH]; simpl; auto. now rewrite IH.
Qed.

(** C2: with an industry that is not a key of the catalog,
    [prepare_training_data] returns exactly one example per custom pair,
    in caller order; with a catalog key it returns the custom pairs'
    examples followed by one example per pair of the industry's table, in
    the table's order, [length custom + length table] in all; the text of
    an example is [question + " " + "###" + " " + answer]. *)
Theorem prepare_training_data_spec
    (business_data : dict str) (custom_faqs : list qa_pair) (industry : str) :
  let example_of (qa : qa_pair) :=
    mkExample (fst qa ++ py " " ++ py "###" ++ py " " ++ snd qa) in
  match dict_get SAMPLE_INDUSTRIES industry with
  | None =>
      prepare_training_data business_data custom_faqs industry
      = Ok (map example_of custom_faqs)
  | Some faqs =>
      prepare_training_data business_data custom_faqs industry
      = Ok (map example_of custom_faqs ++ map example_of (items faqs))
      /\ length (map example_of custom_faqs ++ map example_of (items faqs))
         = length custom_faqs + length (items faqs)
  end.
Proof.
  intros example_of.
  unfold prepare_training_data, try_log_reraise, all_qa_pairs, dict_mem, dict_index.
  destruct (dict_get SAMPLE_INDUSTRIES industry) as [faqs|]; cbn [bind].
  - split.
    + rewrite build_examples_spec, map_fst_snd_id, map_app. reflexivity.
    + now rewrite length_app, !length_map.
  - now rewrite build_examples_spec.
Qed.

(** The scenario of the specification: no custom pair and the industry
    [retail] give the two examples of the catalog, in its order. *)
Example prepare_training_data_retail :
  prepare_training_data [] [] (py "retail")
  = Ok [ mkExample (py "What are your store hours? ### Our store is open Monday through Saturday from 9 AM to 6 PM.");
         mkExample (py "Do you offer returns? ### Yes, we offer returns within 30 days of purchase with original receipt.") ].
Proof. vm_compute. reflexivity. Qed.

(** C10: the examples do not depend on the business profile: two calls
    that differ only in [business_data] yield the same sequence. *)
Theorem prepare_training_data_ignores_profile
    (b1 b2 : dict str) (custom_faqs : list qa_pair) (industry : str) :
  prepare_training_data b1 custom_faqs industry
  = prepare_training_data b2 custom_faqs industry.
Proof. reflexivity. Qed.

(* ===================================================================== *)
(** ** [generate_response]: cleaning the decoded output                   *)
(* ===================================================================== *)

Lemma join_cons_snoc (sep f : str) (fields : list str) (post : str) :
  join sep ((f :: fields) ++ [post]) = f ++ sep ++ join sep (fields ++ [post]).
Proof.
  cbn [app join]. destruct (fields ++ [post]) eqn:F; [|reflexivity].
  now destruct fields.
Qed.

(** The cuts of [split]: no separator starts in a field before the
    last, not even one that ends in the separator that follows the
    field; the last field holds none; joined, the fields give the text
    back. *)
Lemma split_cuts (sep : str) :
  sep <> [] ->
  forall n s, length s <= n ->
    exists fields post,
      split sep s = fields ++ [post]
      /\ Forall (fun f => contains sep (f ++ removelast sep) = false) fields
      /\ contains sep post = false
      /\ s = join sep (fields ++ [post]).
Proof.
  intros Hsep. induction n as [|n IH]; intros s Hn; rewrite split_eq by auto.
  - destruct s; [|simpl in Hn; lia]. rewrite partition_nil by auto.
    exists [], []. repeat split; auto.
    rewrite contains_eq, starts_with_nil_r by auto. reflexivity.
  - destruct (partition sep s) as [[b a]|] eqn:E.
    + pose proof (partition_some_first _ _ _ _ Hsep E) as Hb.
      pose proof (partition_shorter _ _ _ _ Hsep E) as L.
      apply partition_some in E.
      destruct (IH a ltac:(lia)) as (fields & post & H1 & H2 & H3 & H4).
      exists (b :: fields), post. rewrite H1. repeat split; auto.
      rewrite join_cons_snoc, <- H4. exact E.
    + apply partition_none in E. exists [], s. repeat split; auto.
Qed.

(** Conversely, a text put together that way is split into those
    fields. *)
Lemma split_of_cuts (sep : str) (fields : list str) (post : str) :
  sep <> [] ->
  Forall (fun f => contains sep (f ++ removelast sep) = false) fields ->
  contains sep post = false ->
  split sep (join sep (fields ++ [post])) = fields ++ [post].
Proof.
  intros Hsep H Hpost. induction H as [|f fields Hf _ IH].
  - cbn [app join]. now apply split_none.
  - rewrite join_cons_snoc, split_first by auto. cbn [app]. now f_equal.
Qed.

(** An output without separator is trimmed as well: [ hi ] is cleaned
    to [hi]. *)
Remark clean_response_trims_without_separator :
  contains (py "###") (py " hi ") = false /\
  clean_response (py " hi ") = Ok (py "hi") /\
  py "hi" <> py " hi ".
Proof. repeat split; try (vm_compute; reflexivity). discriminate. Qed.

(** What the clean-up [response.split("###")[-1].strip()] computes.  It
    never raises.  Every text is, in one way only, a sequence of fields
    joined by the separator in which no separator starts inside a field
    before the last (nor across its end) and the last field holds none:
    the result is the last field, trimmed.  For a text without
    separator that is the whole text, trimmed. *)
Lemma clean_response_spec (decoded : str) :
  (exists fields post,
     decoded = join (py "###") (fields ++ [post])
     /\ Forall (fun f => contains (py "###") (f ++ py "##") = false) fields
     /\ contains (py "###") post = false)
  /\ (forall fields post,
        decoded = join (py "###") (fields ++ [post]) ->
        Forall (fun f => contains (py "###") (f ++ py "##") = false) fields ->
        contains (py "###") post = false ->
        clean_response decoded = Ok (strip post))
  /\ (contains (py "###") decoded = false ->
      clean_response decoded = Ok (strip decoded)).
Proof.
  assert (Hsep : py "###" <> []) by discriminate.
  assert (Hcut : forall fields post,
             decoded = join (py "###") (fields ++ [post]) ->
             Forall (fun f => contains (py "###") (f ++ py "##") = false) fields ->
             contains (py "###") post = false ->
             clean_response decoded = Ok (strip post)).
  { intros fields post -> Hf Hpost. unfold clean_response.
    rewrite (split_of_cuts (py "###") fields post Hsep Hf Hpost).
    rewrite (getitem_last (fields ++ [post]) []) by (now destruct fields).
    now rewrite last_last. }
  split; [|split; [exact Hcut|]].
  - destruct (split_cuts (py "###") Hsep _ decoded (le_n _))
      as (fields & post & _ & H2 & H3 & H4).
    now exists fields, post.
  - intros H. now apply (Hcut [] decoded).
Qed.

(** Where separators overlap, the cut is the one [split] makes scanning
    from the left: in [a####b] it is the first three [#]. *)
Remark clean_response_overlap :
  clean_response (py "a####b") = Ok (py "#b").
Proof. vm_compute. reflexivity. Qed.

(* ===================================================================== *)
(** ** [ChatbotTrainer.generate_response] as configured                   *)
(* ===================================================================== *)

(** [MODEL_CONFIG] holds none of the generation settings ([GENERATION_CONFIG]
    does): once the prompt is tokenized, [generate_response] raises
    [KeyError: 'max_length'] before the model is asked anything. *)
Remark generate_response_KeyError
    (world model tokens : Type) (mps_available : bool)
    (tokenizer_encode : str -> M world tokens)
    (model_generate : model -> tokens -> pyval -> pyval -> pyval -> M world tokens)
    (tokenizer_decode : tokens -> M world str)
    (question : str) (tr : trainer world model) (ids : tokens) (w : world) :
  tokenizer_encode (question ++ py " ###") (tr_world tr) = (Ok ids, w) ->
  generate_response mps_available tokenizer_encode model_generate
    tokenizer_decode question tr
  = (Raise (mkExn (py "KeyError") (py "'max_length'")), mkTrainer (tr_model tr) w).
Proof.
  intros H. unfold generate_response, generate_response_with, mbind, framework, zoom.
  rewrite H. destruct mps_available; reflexivity.
Qed.

(** With the settings present, the response is the cleaned decoded text. *)
Remark generate_response_with_settings
    (world model tokens : Type)
    (tokenizer_encode : str -> M world tokens)
    (model_generate : model -> tokens -> pyval -> pyval -> pyval -> M world tokens)
    (tokenizer_decode : tokens -> M world str)
    (question decoded : str) (tr : trainer world model)
    (ids out : tokens) (w1 w2 w3 : world) :
  tokenizer_encode (question ++ py " ###") (tr_world tr) = (Ok ids, w1) ->
  model_generate (tr_model tr) ids (PInt 128) (PFloat 7 (-1)) (PFloat 9 (-1)) w1
    = (Ok out, w2) ->
  tokenizer_decode out w2 = (Ok decoded, w3) ->
  generate_response_with tokenizer_encode model_generate tokenizer_decode
    GENERATION_CONFIG question tr
  = (clean_response decoded, mkTrainer (tr_model tr) w3).
Proof.
  intros H1 H2 H3.
  unfold generate_response_with, mbind, framework, zoom, of_result, get.
  rewrite H1. cbn. rewrite H2. cbn. rewrite H3. reflexivity.
Qed.

(** C3: whatever text the framework would decode, [generate_response]
    does not return its cleaned form.  On a framework whose tokenizer,
    model (asked with the settings of [GENERATION_CONFIG]) and decoder
    all work, the source raises [KeyError: 'max_length'] once the prompt
    is tokenized, because it looks the settings up in [MODEL_CONFIG];
    the model is not asked and the clean-up is not reached.  The same
    code reading [GENERATION_CONFIG] returns the cleaned text. *)
Theorem generate_response_misses_clean_up
    (world model tokens : Type) (mps_available : bool)
    (tokenizer_encode : str -> M world tokens)
    (model_generate : model -> tokens -> pyval -> pyval -> pyval -> M world tokens)
    (tokenizer_decode : tokens -> M world str)
    (question decoded : str) (tr : trainer world model)
    (ids out : tokens) (w1 w2 w3 : world) :
  tokenizer_encode (question ++ py " ###") (tr_world tr) = (Ok ids, w1) ->
  model_generate (tr_model tr) ids (PInt 128) (PFloat 7 (-1)) (PFloat 9 (-1)) w1
    = (Ok out, w2) ->
  tokenizer_decode out w2 = (Ok decoded, w3) ->
  generate_response mps_available tokenizer_encode model_generate
    tokenizer_decode question tr
  = (Raise (mkExn (py "KeyError") (py "'max_length'")), mkTrainer (tr_model tr) w1)
  /\ generate_response_with tokenizer_encode model_generate tokenizer_decode
       GENERATION_CONFIG question tr
     = (clean_response decoded, mkTrainer (tr_model tr) w3).
Proof.
  intros H1 H2 H3. split.
  - now apply generate_response_KeyError with (ids := ids).
  - now apply generate_response_with_settings with (ids := ids) (out := out)
      (w1 := w1) (w2 := w2).
Qed.

(** On the scripted framework the decoded text would be
    [When do you open? ### We open at nine. ]: the source raises, and
    with the settings of [GENERATION_CONFIG] the answer would be
    [We open at nine.]. *)
Lemma generate_response_misses_clean_up_example :
  generate_response false toy_encode toy_generate toy_decode
    (py "When do you open?") (mkTrainer 1 tt)
  = (Raise (mkExn (py "KeyError") (py "'max_length'")), mkTrainer 1 tt)
  /\ generate_response_with toy_encode toy_generate toy_decode
       GENERATION_CONFIG (py "When do you open?") (mkTrainer 1 tt)
     = (Ok (py "We open at nine."), mkTrainer 1 tt).
Proof.
  destruct (generate_response_misses_clean_up unit nat str false
              toy_encode toy_generate toy_decode
              (py "When do you open?")
              (py "When do you open? ### We open at nine. ")
              (mkTrainer 1 tt)
              (py "When do you open? ###")
              (py "When do you open? ### We open at nine. ") tt tt tt
              eq_refl eq_refl eq_refl) as [H1 H2].
  split; [exact H1|]. rewrite H2. vm_compute. reflexivity.
Defined.

(* ===================================================================== *)
(** ** [ChatbotInterface.chat] and [train_chatbot]                        *)
(* ===================================================================== *)

Section ChatProperties.

Variables T tokenized loss : Type.
Variable ROOT_DIR : path.
Variable load_model : path -> M T unit.
Variable generate_response : str -> M T str.
Variable tokenize_data : list example -> M T tokenized.
Variable train : tokenized -> M T (loss * path).
Variable format_loss : loss -> str.
Variable path_str : path -> str.

Local Abbreviation run_chat := (chat load_model generate_response).
Local Abbreviation run_train_chatbot :=
  (train_chatbot ROOT_DIR tokenize_data train format_loss path_str).

Lemma needs_load_false (st : iface T) (p : str) :
  needs_load st p = false -> loaded_model_path st = Some p.
Proof.
  unfold needs_load. destruct (loaded_model_path st) as [p'|]; [|discriminate].
  intros H. apply negb_false_iff, str_eqb_eq in H. now subst.
Qed.

Lemma needs_load_iff (st : iface T) (p : str) :
  needs_load st p = true <-> loaded_model_path st <> Some p.
Proof.
  unfold needs_load. destruct (loaded_model_path st) as [p'|].
  - rewrite negb_true_iff, str_eqb_neq. split; congruence.
  - split; [discriminate | reflexivity].
Qed.

Lemma iface_eta (st : iface T) :
  mkIface (trainer_of st) (loaded_model_path st) (files st) (events st) = st.
Proof. now destruct st. Qed.

(** What [chat] does once both checks have passed, by the outcome of
    the calls it makes on the trainer. *)
Lemma chat_passed_checks (question model_path : str) (history : chat_history)
    (st : iface T) :
  question <> [] -> model_path <> [] ->
  run_chat question model_path history st =
  let loading := needs_load st model_path in
  let ev := events st ++ (if loading then [LoadModel (Path model_path)] else []) in
  let loaded :=
    if loading then load_model (Path model_path) (trainer_of st)
    else (Ok tt, trainer_of st) in
  match loaded with
  | (Raise e, t1) =>
      ((py "Error: " ++ exn_str e, history),
       mkIface t1 (loaded_model_path st) (files st) ev)
  | (Ok _, t1) =>
      match generate_response question t1 with
      | (Raise e, t2) =>
          ((py "Error: " ++ exn_str e, history),
           mkIface t2 (Some model_path) (files st)
             (ev ++ [GenerateResponse question]))
      | (Ok response, t2) =>
          ((response, history ++ [(question, response)]),
           mkIface t2 (Some model_path) (files st)
             (ev ++ [GenerateResponse question]))
      end
  end.
Proof.
  intros Hq Hp.
  destruct question as [|qc q]; [congruence|].
  destruct model_path as [|pc p]; [congruence|].
  unfold chat, chat_body, is_empty, mbind, get, emit,
    set_loaded_model_path, modify, on_trainer, zoom, ret.
  cbn zeta.
  destruct (needs_load st (pc :: p)) eqn:N; cbn [trainer_of loaded_model_path files events].
  - destruct (load_model (Path (pc :: p)) (trainer_of st)) as [[[]|e] t1];
      cbn [trainer_of loaded_model_path files events]; [|reflexivity].
    destruct (generate_response (qc :: q) t1) as [[r|e] t2]; reflexivity.
  - rewrite app_nil_r, (needs_load_false _ _ N).
    destruct (generate_response (qc :: q) (trainer_of st)) as [[r|e] t2];
      reflexivity.
Qed.

(** C4: with an empty checkpoint path [chat] answers with the
    train-first message, with a non-empty path and an empty question
    with the ask-a-question message; each time the history (and the
    interface) is unchanged and the message is not empty.  The path is
    checked first: with both empty the train-first message is returned. *)
Theorem chat_guidance (question : str) (c : char) (model_path : str)
    (history : chat_history) (st : iface T) :
  run_chat question [] history st
    = ((py "Please train the chatbot first!", history), st)
  /\ run_chat [] (c :: model_path) history st
    = ((py "Please ask a question!", history), st)
  /\ run_chat [] [] history st
    = ((py "Please train the chatbot first!", history), st)
  /\ py "Please train the chatbot first!" <> []
  /\ py "Please ask a question!" <> [].
Proof. repeat split; discriminate. Qed.

(** C9: an error [e] raised by the trainer is surfaced, not retried.
    In [chat], whether [load_model] or [generate_response] raises it,
    the answer is ["Error: " ++ str(e)] with the history unchanged, and
    the failing call was made once, with no call after it.  In
    [train_chatbot], whether the tokenizer or the training raises it,
    the status is ["Error: " ++ str(e)] (with an empty model path), the
    failing call was made once, and nothing was called after it.  Each
    request returns, leaving the interface to serve the next one. *)
Theorem delegate_error_surfaced (question p : str) (history : chat_history)
    (business_name industry faq_text : str)
    (st : iface T) (e : exn) (t1 t2 : T) :
  question <> [] -> p <> [] ->
  (needs_load st p = true ->
   load_model (Path p) (trainer_of st) = (Raise e, t1) ->
   run_chat question p history st
   = ((py "Error: " ++ exn_str e, history),
      mkIface t1 (loaded_model_path st) (files st)
        (events st ++ [LoadModel (Path p)])))
  /\ ((if needs_load st p
       then load_model (Path p) (trainer_of st) = (Ok tt, t1)
       else t1 = trainer_of st) ->
      generate_response question t1 = (Raise e, t2) ->
      run_chat question p history st
      = ((py "Error: " ++ exn_str e, history),
         mkIface t2 (Some p) (files st)
           (events st
            ++ (if needs_load st p then [LoadModel (Path p)] else [])
            ++ [GenerateResponse question])))
  /\ (forall qa_pairs dataset,
        parse_faq_input faq_text = Ok qa_pairs ->
        prepare_training_data
          [(py "name", business_name); (py "industry", industry)]
          qa_pairs industry = Ok dataset ->
        (tokenize_data dataset (trainer_of st) = (Raise e, t1) ->
         run_train_chatbot business_name industry faq_text st
         = ((py "Error: " ++ exn_str e, []),
            mkIface t1 (loaded_model_path st) (files st)
              (events st
               ++ [Info (py "Starting chatbot training...");
                   Info (py "FAQs processed successfully");
                   Info (py "Training data prepared");
                   TokenizeData])))
        /\ (forall tokens,
              tokenize_data dataset (trainer_of st) = (Ok tokens, t1) ->
              train tokens t1 = (Raise e, t2) ->
              run_train_chatbot business_name industry faq_text st
              = ((py "Error: " ++ exn_str e, []),
                 mkIface t2 (loaded_model_path st) (files st)
                   (events st
                    ++ [Info (py "Starting chatbot training...");
                        Info (py "FAQs processed successfully");
                        Info (py "Training data prepared");
                        TokenizeData;
                        Info (py "Data tokenized");
                        Train])))).
Proof.
  intros Hq Hp. split; [|split].
  - intros N Hload. rewrite chat_passed_checks by assumption. cbn zeta.
    now rewrite N, Hload.
  - intros Hload Hgen. rewrite chat_passed_checks by assumption. cbn zeta.
    destruct (needs_load st p).
    + rewrite Hload, Hgen, <- app_assoc. reflexivity.
    + subst t1. rewrite Hgen, <- app_assoc. reflexivity.
  - intros qa_pairs dataset Hparse Hprep.
    unfold train_chatbot, train_chatbot_body, mbind, emit,
      modify, of_result, on_trainer, zoom.
    cbn [trainer_of loaded_model_path files events].
    rewrite Hparse. cbn [trainer_of loaded_model_path files events].
    rewrite Hprep. cbn [trainer_of loaded_model_path files events].
    split.
    + intros Htok. rewrite Htok. rewrite <- !app_assoc. reflexivity.
    + intros tokens Htok Htrain. rewrite Htok.
      cbn [trainer_of loaded_model_path files events].
      rewrite Htrain. rewrite <- !app_assoc. reflexivity.
Qed.

End ChatProperties.

(** C5: on the trainer as the source configures it, a request with a
    question and a checkpoint path does not return a response.  The
    checkpoint part is done as claimed: [load_model] is called exactly
    when the path differs from the last one loaded (or none was), and
    the path is recorded as loaded.  But once the prompt is tokenized
    [generate_response] raises [KeyError: 'max_length'], so the answer
    is the error text and the history comes back without the turn. *)
Theorem chat_answers_KeyError
    (world model tokens : Type) (mps_available : bool)
    (tokenizer_encode : str -> M world tokens)
    (model_generate : model -> tokens -> pyval -> pyval -> pyval -> M world tokens)
    (tokenizer_decode : tokens -> M world str)
    (from_pretrained : path -> M world model)
    (model_to : model -> str -> M world unit)
    (question p : str) (history : chat_history)
    (st : iface (trainer world model)) (t1 : trainer world model)
    (ids : tokens) (w : world) :
  question <> [] -> p <> [] ->
  (if needs_load st p
   then load_model mps_available from_pretrained model_to (Path p) (trainer_of st)
        = (Ok tt, t1)
   else t1 = trainer_of st) ->
  tokenizer_encode (question ++ py " ###") (tr_world t1) = (Ok ids, w) ->
  chat (load_model mps_available from_pretrained model_to)
    (generate_response mps_available tokenizer_encode model_generate
       tokenizer_decode)
    question p history st
  = ((py "Error: 'max_length'", history),
     mkIface (mkTrainer (tr_model t1) w) (Some p) (files st)
       (events st
        ++ (if needs_load st p then [LoadModel (Path p)] else [])
        ++ [GenerateResponse question])).
Proof.
  intros Hq Hp Hload Henc.
  rewrite chat_passed_checks by assumption. cbn zeta.
  pose proof (generate_response_KeyError world model tokens mps_available
                tokenizer_encode model_generate tokenizer_decode
                question t1 ids w Henc) as E.
  destruct (needs_load st p).
  - rewrite Hload, E, <- app_assoc. reflexivity.
  - subst t1. rewrite E, <- app_assoc. reflexivity.
Qed.

(** On the scripted framework, where tokenizer, model and decoder work:
    a first question loads the checkpoint and is answered with the
    error; a second one with the same checkpoint does not load again and
    is answered with the error too; the history stays empty. *)
Lemma chat_answers_KeyError_example :
  chat (toy_load_model true)
    (generate_response false toy_encode toy_generate toy_decode)
    (py "When do you open?") (py "/models/fine_tuned") [] toy_iface
  = ((py "Error: 'max_length'", []),
     mkIface (mkTrainer 1 tt) (Some (py "/models/fine_tuned")) (files toy_iface)
       [LoadModel (Path (py "/models/fine_tuned"));
        GenerateResponse (py "When do you open?")])
  /\ chat (toy_load_model true)
       (generate_response false toy_encode toy_generate toy_decode)
       (py "And on Sunday?") (py "/models/fine_tuned") []
       (mkIface (mkTrainer 1 tt) (Some (py "/models/fine_tuned"))
          (files toy_iface) [])
     = ((py "Error: 'max_length'", []),
        mkIface (mkTrainer 1 tt) (Some (py "/models/fine_tuned")) (files toy_iface)
          [GenerateResponse (py "And on Sunday?")]).
Proof.
  split.
  - exact (chat_answers_KeyError unit nat str false
             toy_encode toy_generate toy_decode (toy_from_pretrained true) toy_to
             (py "When do you open?") (py "/models/fine_tuned") [] toy_iface
             (mkTrainer 1 tt) (py "When do you open? ###") tt
             ltac:(discriminate) ltac:(discriminate) eq_refl eq_refl).
  - exact (chat_answers_KeyError unit nat str false
             toy_encode toy_generate toy_decode (toy_from_pretrained true) toy_to
             (py "And on Sunday?") (py "/models/fine_tuned") []
             (mkIface (mkTrainer 1 tt) (Some (py "/models/fine_tuned"))
                (files toy_iface) [])
             (mkTrainer 1 tt) (py "And on Sunday? ###") tt
             ltac:(discriminate) ltac:(discriminate) eq_refl eq_refl).
Defined.

(** The scripted trainer fails at each of its four calls in turn: the
    error is the answer of the request, and the history is untouched. *)
Lemma delegate_error_surfaced_example :
  fst (chat (toy_load_model false) (toy_generate_response true)
         (py "When do you open?") (py "/models/fine_tuned") [] toy_iface)
  = (py "Error: checkpoint not found", [])
  /\ fst (chat (toy_load_model true) (toy_generate_response false)
            (py "When do you open?") (py "/models/fine_tuned") [] toy_iface)
     = (py "Error: out of memory", [])
  /\ fst (train_chatbot (Path (py "/app")) (toy_tokenize_data false)
            (toy_train true) (fun _ => py "0.0000") (fun _ => py "models")
            (py "Corner Shop") (py "bakery") (py "Q: Open? A: Yes") toy_iface)
     = (py "Error: tokenization failed", [])
  /\ fst (train_chatbot (Path (py "/app")) (toy_tokenize_data true)
            (toy_train false) (fun _ => py "0.0000") (fun _ => py "models")
            (py "Corner Shop") (py "bakery") (py "Q: Open? A: Yes") toy_iface)
     = (py "Error: out of memory", []).
Proof.
  pose (shop := delegate_error_surfaced toy_trainer (list str) nat
                  (Path (py "/app"))).
  pose (asked := fun load gen tok trn =>
          shop load gen tok trn (fun _ => py "0.0000") (fun _ => py "models")
            (py "When do you open?") (py "/models/fine_tuned") []
            (py "Corner Shop") (py "bakery") (py "Q: Open? A: Yes") toy_iface).
  split; [|split; [|split]].
  - destruct (asked (toy_load_model false) (toy_generate_response true)
                (toy_tokenize_data true) (toy_train true)
                (mkExn (py "OSError") (py "checkpoint not found"))
                (mkTrainer 0 tt) (mkTrainer 0 tt)
                ltac:(discriminate) ltac:(discriminate)) as [H _].
    rewrite H; [reflexivity | vm_compute; reflexivity | vm_compute; reflexivity].
  - destruct (asked (toy_load_model true) (toy_generate_response false)
                (toy_tokenize_data true) (toy_train true)
                (mkExn (py "RuntimeError") (py "out of memory"))
                (mkTrainer 1 tt) (mkTrainer 1 tt)
                ltac:(discriminate) ltac:(discriminate)) as [_ [H _]].
    rewrite H; [reflexivity | vm_compute; reflexivity | vm_compute; reflexivity].
  - destruct (asked (toy_load_model true) (toy_generate_response true)
                (toy_tokenize_data false) (toy_train true)
                (mkExn (py "ValueError") (py "tokenization failed"))
                (mkTrainer 0 tt) (mkTrainer 0 tt)
                ltac:(discriminate) ltac:(discriminate)) as [_ [_ H]].
    destruct (H [(py "Open?", py "Yes")] [mkExample (py "Open? ### Yes")]
                ltac:(vm_compute; reflexivity) ltac:(vm_compute; reflexivity))
      as [Htok _].
    rewrite Htok; [reflexivity | vm_compute; reflexivity].
  - destruct (asked (toy_load_model true) (toy_generate_response true)
                (toy_tokenize_data true) (toy_train false)
                (mkExn (py "RuntimeError") (py "out of memory"))
                (mkTrainer 0 tt) (mkTrainer 0 tt)
                ltac:(discriminate) ltac:(discriminate)) as [_ [_ H]].
    destruct (H [(py "Open?", py "Yes")] [mkExample (py "Open? ### Yes")]
                ltac:(vm_compute; reflexivity) ltac:(vm_compute; reflexivity))
      as [_ Htrain].
    rewrite (Htrain [py "Open? ### Yes"]);
      [reflexivity | vm_compute; reflexivity | vm_compute; reflexivity].
Defined.

(* ===================================================================== *)
(** ** [json]: what is written is read back                               *)
(* ===================================================================== *)

(** Bit operations on disjoint fields are sums. *)
Lemma lor_shiftl_small (a b n : N) :
  (b < 2 ^ n)%N -> N.lor (N.shiftl a n) b = (a * 2 ^ n + b)%N.
Proof.
  intros Hb.
  assert (Z0 : N.land (N.shiftl a n) b = 0%N).
  { apply N.bits_inj. intros i. rewrite N.land_spec, N.bits_0.
    destruct (N.lt_ge_cases i n) as [Hi|Hi].
    - now rewrite N.shiftl_spec_low.
    - rewrite <- (N.mod_small b (2 ^ n)) by exact Hb.
      rewrite N.mod_pow2_bits_high by exact Hi. apply andb_false_r. }
  rewrite <- N.lxor_lor by exact Z0.
  rewrite <- N.add_nocarry_lxor by exact Z0.
  now rewrite N.shiftl_mul_pow2.
Qed.

Lemma high_surrogate_of (n : N) :
  N.lor 55296 (N.land (N.shiftr n 10) 1023) = (55296 + (n / 1024) mod 1024)%N.
Proof.
  change 1023%N with (N.ones 10).
  rewrite N.land_ones, N.shiftr_div_pow2.
  change (2 ^ 10)%N with 1024%N.
  change 55296%N with (N.shiftl 54 10).
  rewrite lor_shiftl_small by (apply N.mod_lt; discriminate). reflexivity.
Qed.

Lemma low_surrogate_of (n : N) :
  N.lor 56320 (N.land n 1023) = (56320 + n mod 1024)%N.
Proof.
  change 1023%N with (N.ones 10). rewrite N.land_ones.
  change (2 ^ 10)%N with 1024%N.
  change 56320%N with (N.shiftl 55 10).
  rewrite lor_shiftl_small by (apply N.mod_lt; discriminate). reflexivity.
Qed.

Lemma join_surrogates_of (n : N) :
  (n < 1048576)%N ->
  join_surrogates (55296 + n / 1024) (56320 + n mod 1024) = (65536 + n)%N.
Proof.
  intros Hn. unfold join_surrogates.
  rewrite (N.add_comm 55296), N.add_sub, (N.add_comm 56320), N.add_sub.
  rewrite lor_shiftl_small by (apply N.mod_lt; discriminate).
  change (2 ^ 10)%N with 1024%N. f_equal.
  rewrite (N.div_mod n 1024) at 3 by discriminate.
  now rewrite (N.mul_comm 1024).
Qed.

(** The sixteen digits. *)
Lemma below_16 (d : N) (P : N -> Prop) :
  (d < 16)%N ->
  P 0%N -> P 1%N -> P 2%N -> P 3%N -> P 4%N -> P 5%N -> P 6%N -> P 7%N ->
  P 8%N -> P 9%N -> P 10%N -> P 11%N -> P 12%N -> P 13%N -> P 14%N -> P 15%N ->
  P d.
Proof.
  intros Hd. intros.
  assert (E : (d = 0 \/ d = 1 \/ d = 2 \/ d = 3 \/ d = 4 \/ d = 5 \/ d = 6
               \/ d = 7 \/ d = 8 \/ d = 9 \/ d = 10 \/ d = 11 \/ d = 12
               \/ d = 13 \/ d = 14 \/ d = 15)%N) by lia.
  repeat (destruct E as [->|E]; [assumption|]). now subst.
Qed.

Lemma hex_value_hex_digit (d : N) :
  (d < 16)%N -> hex_value (hex_digit d) = Some d.
Proof.
  intros Hd.
  apply (below_16 d (fun d => hex_value (hex_digit d) = Some d) Hd); reflexivity.
Qed.

Lemma hex_digit_plain (d : N) :
  (d < 16)%N -> is_plain_ascii (hex_digit d) = true.
Proof.
  intros Hd.
  apply (below_16 d (fun d => is_plain_ascii (hex_digit d) = true) Hd); reflexivity.
Qed.

Lemma hex_digit_not_special (d : N) :
  (d < 16)%N ->
  N.eqb (hex_digit d) dquote = false /\ N.eqb (hex_digit d) backslash = false.
Proof.
  intros Hd.
  apply (below_16 d (fun d => N.eqb (hex_digit d) dquote = false
                              /\ N.eqb (hex_digit d) backslash = false) Hd);
    split; reflexivity.
Qed.

(** Four hexadecimal digits of a number below 16^4 are the number. *)
Lemma hex4_digits (n : N) :
  (n < 65536)%N ->
  hex4 (hex_digit (n / 4096 mod 16)) (hex_digit (n / 256 mod 16))
       (hex_digit (n / 16 mod 16)) (hex_digit (n mod 16)) = Some n.
Proof.
  intros Hn. unfold hex4.
  rewrite !hex_value_hex_digit by (apply N.mod_lt; discriminate).
  f_equal.
  assert (H1 : (n / 4096 mod 16 = n / 4096)%N).
  { apply N.mod_small. apply N.Div0.div_lt_upper_bound. exact Hn. }
  rewrite H1.
  pose proof (N.div_mod n 16 ltac:(discriminate)) as E0.
  pose proof (N.div_mod (n / 16) 16 ltac:(discriminate)) as E1.
  pose proof (N.div_mod (n / 256) 16 ltac:(discriminate)) as E2.
  rewrite N.Div0.div_div in E1, E2.
  change (16 * 16)%N with 256%N in E1. change (256 * 16)%N with 4096%N in E2.
  generalize dependent (n mod 16)%N. generalize dependent ((n / 16) mod 16)%N.
  generalize dependent ((n / 256) mod 16)%N.
  generalize dependent (n / 4096)%N. generalize dependent (n / 256)%N.
  generalize dependent (n / 16)%N.
  intros. lia.
Qed.

(** One step of the scanner on a [\uXXXX] escape. *)
Lemma scanstring_u_step (h1 h2 h3 h4 : char) (r2 : str) :
  scanstring (backslash :: ch "u" :: h1 :: h2 :: h3 :: h4 :: r2)
  = match hex4 h1 h2 h3 h4 with
    | Some uni =>
        if is_high_surrogate uni then
          match r2 with
          | b :: u :: l1 :: l2 :: l3 :: l4 :: r3 =>
              if N.eqb b backslash && N.eqb u (ch "u") then
                match hex4 l1 l2 l3 l4 with
                | Some uni2 =>
                    if is_low_surrogate uni2 then
                      cons_fst (join_surrogates uni uni2) (scanstring r3)
                    else cons_fst uni (scanstring r2)
                | None => None
                end
              else cons_fst uni (scanstring r2)
          | _ => cons_fst uni (scanstring r2)
          end
        else cons_fst uni (scanstring r2)
    | None => None
    end.
Proof. reflexivity. Qed.

Lemma u_escape_eq (n : N) (tl : str) :
  u_escape n ++ tl
  = backslash :: ch "u"
      :: hex_digit (n / 4096 mod 16) :: hex_digit (n / 256 mod 16)
      :: hex_digit (n / 16 mod 16) :: hex_digit (n mod 16) :: tl.
Proof. reflexivity. Qed.

(** A [\uXXXX] escape is read back as its character, unless it is a
    high surrogate and the escape of a low surrogate follows. *)
Lemma scanstring_u_escape (uni : N) (tl : str) :
  (uni < 65536)%N ->
  (is_high_surrogate uni = true -> low_escape_next tl = false) ->
  scanstring (u_escape uni ++ tl) = cons_fst uni (scanstring tl).
Proof.
  intros Hn Hnext.
  rewrite u_escape_eq, scanstring_u_step, hex4_digits by exact Hn.
  destruct (is_high_surrogate uni); [|reflexivity].
  specialize (Hnext eq_refl).
  destruct tl as [|b [|u [|l1 [|l2 [|l3 [|l4 r3]]]]]]; try reflexivity.
  unfold low_escape_next in Hnext.
  destruct (N.eqb b backslash && N.eqb u (ch "u")); [|reflexivity].
  cbn [andb] in Hnext.
  destruct (hex4 l1 l2 l3 l4); [|discriminate].
  now rewrite Hnext.
Qed.

Lemma low_escape_next_u (n : N) (tl : str) :
  (n < 65536)%N -> low_escape_next (u_escape n ++ tl) = is_low_surrogate n.
Proof.
  intros Hn. rewrite u_escape_eq. unfold low_escape_next.
  rewrite hex4_digits by exact Hn. reflexivity.
Qed.

Lemma low_escape_next_quote (rest : str) :
  low_escape_next (dquote :: rest) = false.
Proof. destruct rest as [|? [|? [|? [|? [|? ?]]]]]; reflexivity. Qed.

(** The two surrogates of a character above U+FFFF. *)
Lemma high_surrogate_range (q : N) :
  (q < 1024)%N ->
  (55296 + q < 65536)%N
  /\ is_high_surrogate (55296 + q)%N = true
  /\ is_low_surrogate (55296 + q)%N = false.
Proof.
  intros Hq. unfold is_high_surrogate, is_low_surrogate. split; [lia|]. split.
  - apply andb_true_iff. split; apply N.leb_le; lia.
  - apply andb_false_iff. left. apply N.leb_gt. lia.
Qed.

Lemma low_surrogate_range (q : N) :
  (q < 1024)%N ->
  (56320 + q < 65536)%N /\ is_low_surrogate (56320 + q)%N = true.
Proof.
  intros Hq. unfold is_low_surrogate. split; [lia|].
  apply andb_true_iff. split; apply N.leb_le; lia.
Qed.

(** What follows the escape of a character that is not a low surrogate
    does not pair up with a high surrogate before it. *)
Lemma low_escape_next_escape (c : char) (tl : str) :
  is_low_surrogate c = false -> low_escape_next (escape_char c ++ tl) = false.
Proof.
  intros Hlow. unfold escape_char.
  destruct (N.eqb c dquote);
    [destruct tl as [|? [|? [|? [|? ?]]]]; reflexivity|].
  destruct (N.eqb c backslash) eqn:Hbs;
    [destruct tl as [|? [|? [|? [|? ?]]]]; reflexivity|].
  destruct (c =? 10)%N; [destruct tl as [|? [|? [|? [|? ?]]]]; reflexivity|].
  destruct (c =? 13)%N; [destruct tl as [|? [|? [|? [|? ?]]]]; reflexivity|].
  destruct (c =? 9)%N; [destruct tl as [|? [|? [|? [|? ?]]]]; reflexivity|].
  destruct (c =? 8)%N; [destruct tl as [|? [|? [|? [|? ?]]]]; reflexivity|].
  destruct (c =? 12)%N; [destruct tl as [|? [|? [|? [|? ?]]]]; reflexivity|].
  destruct ((32 <=? c) && (c <=? 126))%N.
  { destruct tl as [|? [|? [|? [|? [|? ?]]]]]; try reflexivity.
    cbn [app]. unfold low_escape_next. now rewrite Hbs. }
  destruct (c <? 65536)%N eqn:Hc.
  { rewrite low_escape_next_u by (now apply N.ltb_lt). exact Hlow. }
  cbv zeta. rewrite high_surrogate_of, <- app_assoc.
  destruct (high_surrogate_range ((c - 65536) / 1024 mod 1024)%N)
    as (H1 & _ & H3); [apply N.mod_lt; discriminate|].
  rewrite low_escape_next_u by exact H1. exact H3.
Qed.

(** The scanner undoes the escaping of one character, unless it is a
    high surrogate and the escape of a low surrogate follows. *)
Lemma scanstring_escape_char (c : char) (tl : str) :
  is_code_point c = true ->
  (is_high_surrogate c = true -> low_escape_next tl = false) ->
  scanstring (escape_char c ++ tl) = cons_fst c (scanstring tl).
Proof.
  intros Hcp Hnext. unfold escape_char.
  destruct (N.eqb c dquote) eqn:Hdq;
    [apply N.eqb_eq in Hdq; subst c; reflexivity|].
  destruct (N.eqb c backslash) eqn:Hbs;
    [apply N.eqb_eq in Hbs; subst c; reflexivity|].
  destruct (c =? 10)%N eqn:E; [apply N.eqb_eq in E; subst c; reflexivity|]. clear E.
  destruct (c =? 13)%N eqn:E; [apply N.eqb_eq in E; subst c; reflexivity|]. clear E.
  destruct (c =? 9)%N eqn:E; [apply N.eqb_eq in E; subst c; reflexivity|]. clear E.
  destruct (c =? 8)%N eqn:E; [apply N.eqb_eq in E; subst c; reflexivity|]. clear E.
  destruct (c =? 12)%N eqn:E; [apply N.eqb_eq in E; subst c; reflexivity|]. clear E.
  destruct ((32 <=? c) && (c <=? 126))%N eqn:Hp.
  { apply andb_true_iff in Hp as [Hp _]. apply N.leb_le in Hp.
    cbn [app scanstring]. rewrite Hdq, Hbs.
    replace (c <? 32)%N with false; [reflexivity|].
    symmetry. apply N.ltb_ge. exact Hp. }
  destruct (c <? 65536)%N eqn:Hc.
  { apply scanstring_u_escape; [now apply N.ltb_lt | exact Hnext]. }
  apply N.ltb_ge in Hc. unfold is_code_point in Hcp. apply N.leb_le in Hcp.
  cbv zeta. set (n := (c - 65536)%N).
  assert (Hn : (n < 1048576)%N) by (unfold n; lia).
  assert (Hq : (n / 1024 < 1024)%N)
    by (apply N.Div0.div_lt_upper_bound; exact Hn).
  rewrite high_surrogate_of, low_surrogate_of, (N.mod_small _ _ Hq).
  destruct (high_surrogate_range (n / 1024)%N Hq) as (H1 & H2 & _).
  destruct (low_surrogate_range (n mod 1024)%N) as (L1 & L2);
    [apply N.mod_lt; discriminate|].
  rewrite <- app_assoc.
  rewrite u_escape_eq, scanstring_u_step, hex4_digits, H2 by exact H1.
  rewrite u_escape_eq.
  change (N.eqb backslash backslash && N.eqb (ch "u") (ch "u")) with true.
  cbv iota. rewrite hex4_digits, L2 by exact L1.
  rewrite join_surrogates_of by exact Hn.
  unfold n. now replace (65536 + (c - 65536))%N with c by lia.
Qed.

Lemma unpaired_cons (c : char) (s : str) :
  unpaired (c :: s) ->
  is_code_point c = true
  /\ unpaired s
  /\ (is_high_surrogate c = true ->
      match s with
      | [] => True
      | c' :: _ => is_low_surrogate c' = false
      end).
Proof.
  unfold unpaired. cbn [forallb no_surrogate_pair]. intros [H1 H2].
  apply andb_true_iff in H1 as [Hc Hs]. split; [exact Hc|].
  destruct s as [|c' s'].
  - repeat split; auto.
  - apply andb_true_iff in H2 as [Hp Hr]. repeat split; auto.
    intros Hh. rewrite Hh in Hp. cbn in Hp.
    now destruct (is_low_surrogate c').
Qed.

Lemma scanstring_encoded (s rest : str) :
  unpaired s ->
  scanstring (flat_map escape_char s ++ dquote :: rest) = Some (s, rest).
Proof.
  induction s as [|c s IH]; intros Hs.
  - reflexivity.
  - apply unpaired_cons in Hs as (Hc & Hs & Hnext).
    cbn [flat_map]. rewrite <- app_assoc, scanstring_escape_char, IH; auto.
    intros Hh. specialize (Hnext Hh). destruct s as [|c' s'].
    + apply low_escape_next_quote.
    + cbn [flat_map]. rewrite <- app_assoc. now apply low_escape_next_escape.
Qed.

Lemma skip_ws_indent (k : nat) (c : char) (r : str) :
  is_json_ws c = false -> skip_ws (newline_indent k ++ c :: r) = c :: r.
Proof.
  intros H. unfold newline_indent. cbn [app nl skip_ws].
  change (is_json_ws (ch "010")) with true. cbv iota.
  induction (2 * k) as [|n IH]; simpl.
  - now rewrite H.
  - exact IH.
Qed.

Lemma skip_ws_stop (c : char) (r : str) :
  is_json_ws c = false -> skip_ws (c :: r) = c :: r.
Proof. intros H. simpl. now rewrite H. Qed.

(** An encoded value starts with a quote or an opening bracket. *)
Lemma encode_head (lvl : nat) (v : json) :
  exists c r, encode lvl v = c :: r /\ opens_value c.
Proof.
  unfold opens_value.
  destruct v as [s|[|x l]|[|kv fs]]; cbn [encode py list_ascii_of_string map app];
    try (unfold encode_string; cbn [app]); eauto 8.
Qed.

Lemma opens_value_not_ws (c : char) : opens_value c -> is_json_ws c = false.
Proof. intros [->|[->| ->]]; reflexivity. Qed.

Lemma opens_value_not_close (c : char) :
  opens_value c -> N.eqb c (ch "]") = false /\ N.eqb c (ch "}") = false.
Proof. intros [->|[->| ->]]; split; reflexivity. Qed.

Lemma join_single (sep p : str) : join sep [p] = p.
Proof. reflexivity. Qed.

Lemma join_cons (sep p q : str) (r : list str) :
  join sep (p :: q :: r) = p ++ sep ++ join sep (q :: r).
Proof. reflexivity. Qed.

Lemma encode_items_head (lvl : nat) (l : list json) (tl : str) :
  l <> [] -> exists c r, encode_items lvl l ++ tl = c :: r /\ opens_value c.
Proof.
  destruct l as [|x l]; [congruence|]. intros _.
  destruct (encode_head lvl x) as (c & r & E & H).
  unfold encode_items. destruct l as [|y l]; cbn [map].
  - rewrite join_single, E. exists c, (r ++ tl). auto.
  - rewrite join_cons, E. cbn [app]. eauto.
Qed.

Lemma encode_members_head (lvl : nat) (fs : list (str * json)) (tl : str) :
  fs <> [] -> exists r, encode_members lvl fs ++ tl = dquote :: r.
Proof.
  destruct fs as [|[k x] fs]; [congruence|]. intros _.
  unfold encode_members. destruct fs as [|kv fs]; cbn [map].
  - rewrite join_single. unfold encode_member, encode_string. cbn [app]. eauto.
  - rewrite join_cons. unfold encode_member at 1. unfold encode_string.
    cbn [app]. eauto.
Qed.

(** The text of each kind of value. *)
Lemma encode_str (lvl : nat) (s rest : str) :
  encode lvl (JStr s) ++ rest = dquote :: flat_map escape_char s ++ dquote :: rest.
Proof. cbn [encode]. unfold encode_string. cbn [app]. now rewrite <- app_assoc. Qed.

Lemma encode_arr (lvl : nat) (x : json) (l : list json) (rest : str) :
  encode lvl (JArr (x :: l)) ++ rest
  = (ch "[") :: newline_indent (S lvl)
      ++ (encode_items (S lvl) (x :: l) ++ newline_indent lvl ++ (ch "]") :: rest).
Proof.
  cbn [encode]. fold (encode_items (S lvl) (x :: l)).
  change (py "[") with [(ch "[")]. change (py "]") with [(ch "]")].
  cbn [app]. now rewrite <- !app_assoc.
Qed.

Lemma encode_obj (lvl : nat) (kv : str * json) (fs : list (str * json)) (rest : str) :
  encode lvl (JObj (kv :: fs)) ++ rest
  = (ch "{") :: newline_indent (S lvl)
      ++ (encode_members (S lvl) (kv :: fs) ++ newline_indent lvl ++ (ch "}") :: rest).
Proof.
  cbn [encode]. change (py "{") with [(ch "{")]. change (py "}") with [(ch "}")].
  cbn [app]. rewrite <- !app_assoc. reflexivity.
Qed.

(** [dict(pairs)] of pairs with distinct keys is the list of the pairs. *)
Lemma dict_set_fresh {V} (d : dict V) (k : str) (v : V) :
  ~ In k (map fst d) -> dict_set d k v = d ++ [(k, v)].
Proof.
  induction d as [|[k' v'] d IH]; intros H; cbn [dict_set app].
  - reflexivity.
  - cbn [map fst In] in H.
    destruct (str_eqb k' k) eqn:E.
    + apply str_eqb_eq in E. tauto.
    + rewrite IH; tauto.
Qed.

Lemma dict_of_pairs_from {V} (l acc : list (str * V)) :
  NoDup (map fst (acc ++ l)) ->
  fold_left (fun d kv => dict_set d (fst kv) (snd kv)) l acc = acc ++ l.
Proof.
  revert acc. induction l as [|[k v] l IH]; intros acc H; cbn [fold_left].
  - now rewrite app_nil_r.
  - cbn [fst snd]. rewrite dict_set_fresh.
    + rewrite IH; rewrite <- app_assoc; [reflexivity | exact H].
    + rewrite map_app in H. cbn [map fst] in H.
      apply NoDup_remove_2 in H. intros Hin. apply H.
      apply in_or_app. now left.
Qed.

Lemma dict_of_pairs_nodup {V} (l : list (str * V)) :
  NoDup (map fst l) -> dict_of_pairs l = l.
Proof. intros H. unfold dict_of_pairs. now rewrite dict_of_pairs_from. Qed.

Lemma encode_items_one (lvl : nat) (x : json) : encode_items lvl [x] = encode lvl x.
Proof. reflexivity. Qed.

Lemma encode_items_cons (lvl : nat) (x y : json) (l : list json) :
  encode_items lvl (x :: y :: l)
  = encode lvl x ++ (ch ",") :: newline_indent lvl ++ encode_items lvl (y :: l).
Proof. reflexivity. Qed.

Lemma encode_members_one (lvl : nat) (kv : str * json) :
  encode_members lvl [kv] = encode_member lvl kv.
Proof. reflexivity. Qed.

Lemma encode_members_cons (lvl : nat) (kv kv' : str * json) (fs : list (str * json)) :
  encode_members lvl (kv :: kv' :: fs)
  = encode_member lvl kv ++ (ch ",") :: newline_indent lvl
      ++ encode_members lvl (kv' :: fs).
Proof. reflexivity. Qed.

(** One step of each decoder function. *)
Lemma parse_value_string (n : nat) (r : str) :
  parse_value (S n) (dquote :: r)
  = match scanstring r with
    | Some (t, rest) => Some (JStr t, rest)
    | None => None
    end.
Proof. reflexivity. Qed.

Lemma parse_value_array (n : nat) (r : str) :
  parse_value (S n) ((ch "[") :: r)
  = match skip_ws r with
    | [] => None
    | c1 :: r1 =>
        if N.eqb c1 (ch "]") then Some (JArr [], r1)
        else match parse_elements n (c1 :: r1) with
             | Some (elems, rest) => Some (JArr elems, rest)
             | None => None
             end
    end.
Proof. reflexivity. Qed.

Lemma parse_value_object (n : nat) (r : str) :
  parse_value (S n) ((ch "{") :: r)
  = match skip_ws r with
    | [] => None
    | c1 :: r1 =>
        if N.eqb c1 (ch "}") then Some (JObj [], r1)
        else match parse_members n (c1 :: r1) with
             | Some (pairs, rest) => Some (JObj (dict_of_pairs pairs), rest)
             | None => None
             end
    end.
Proof. reflexivity. Qed.

Lemma parse_elements_step (n : nat) (s : str) :
  parse_elements (S n) s
  = match parse_value n s with
    | None => None
    | Some (v, r) =>
        match skip_ws r with
        | [] => None
        | c :: r1 =>
            if N.eqb c (ch ",") then
              cons_fst v (parse_elements n (skip_ws r1))
            else if N.eqb c (ch "]") then Some ([v], r1)
            else None
        end
    end.
Proof. reflexivity. Qed.

Lemma parse_members_step (n : nat) (r : str) :
  parse_members (S n) (dquote :: r)
  = match scanstring r with
    | None => None
    | Some (k, r0) =>
        match skip_ws r0 with
        | [] => None
        | c :: r1 =>
            if N.eqb c (ch ":") then
              match parse_value n (skip_ws r1) with
              | None => None
              | Some (v, r2) =>
                  match skip_ws r2 with
                  | [] => None
                  | c2 :: r3 =>
                      if N.eqb c2 (ch ",") then
                        cons_fst (k, v) (parse_members n (skip_ws r3))
                      else if N.eqb c2 (ch "}") then Some ([(k, v)], r3)
                      else None
                  end
              end
            else None
        end
    end.
Proof. reflexivity. Qed.

(** With enough fuel the decoder reads back an encoded value, the
    encoded items of a list up to the closing bracket, and the encoded
    members of a dict up to the closing brace. *)
Lemma decode_encoded (n : nat) :
  (forall v lvl rest,
     jsize v <= n -> json_wf v ->
     parse_value n (encode lvl v ++ rest) = Some (v, rest))
  /\ (forall l lvl k rest,
        l <> [] -> elems_size l <= n -> elems_wf l ->
        parse_elements n
          (encode_items lvl l ++ newline_indent k ++ (ch "]") :: rest)
        = Some (l, rest))
  /\ (forall fs lvl k rest,
        fs <> [] -> fields_size fs <= n -> fields_wf fs ->
        parse_members n
          (encode_members lvl fs ++ newline_indent k ++ (ch "}") :: rest)
        = Some (fs, rest)).
Proof.
  induction n as [|n (IHv & IHe & IHm)].
  - split; [|split].
    + intros [s|l|fs] lvl rest H; cbn [jsize] in H; lia.
    + intros [|x l] lvl k rest Hne H; [congruence | cbn in H; lia].
    + intros [|[key x] fs] lvl k rest Hne H; [congruence | cbn in H; lia].
  - split; [|split].
    + (* a value *)
      intros [s|[|x l]|[|kv fs]] lvl rest Hsize Hwf.
      * rewrite encode_str, parse_value_string, scanstring_encoded by exact Hwf.
        reflexivity.
      * reflexivity.
      * rewrite encode_arr, parse_value_array.
        destruct (encode_items_head (S lvl) (x :: l)
                    (newline_indent lvl ++ (ch "]") :: rest)
                    ltac:(discriminate)) as (c & r & E & Hc).
        rewrite E, skip_ws_indent by (now apply opens_value_not_ws).
        rewrite (proj1 (opens_value_not_close c Hc)), <- E.
        rewrite IHe; [reflexivity | discriminate | | exact Hwf].
        cbn [jsize] in Hsize. unfold elems_size. lia.
      * reflexivity.
      * rewrite encode_obj, parse_value_object.
        destruct (encode_members_head (S lvl) (kv :: fs)
                    (newline_indent lvl ++ (ch "}") :: rest)
                    ltac:(discriminate)) as (r & E).
        rewrite E, skip_ws_indent by reflexivity.
        change (N.eqb dquote (ch "}")) with false. cbv iota. rewrite <- E.
        destruct Hwf as [Hnd Hwf].
        rewrite IHm; [|discriminate | | exact Hwf].
        -- now rewrite dict_of_pairs_nodup.
        -- cbn [jsize] in Hsize. unfold fields_size. lia.
    + (* the items of a list *)
      intros [|x l] lvl k rest Hne Hsize Hwf; [congruence|].
      cbn [elems_size fold_right] in Hsize. fold (elems_size l) in Hsize.
      destruct Hwf as [Hx Hl]. fold (elems_wf l) in Hl.
      rewrite parse_elements_step.
      destruct l as [|y l].
      * rewrite encode_items_one, IHv by (auto; lia).
        rewrite skip_ws_indent by reflexivity. reflexivity.
      * rewrite encode_items_cons, <- !app_assoc, IHv by (auto; lia).
        cbn [app]. rewrite skip_ws_stop by reflexivity.
        change (N.eqb (ch ",") (ch ",")) with true. cbv iota.
        rewrite <- app_assoc.
        destruct (encode_items_head lvl (y :: l)
                    (newline_indent k ++ (ch "]") :: rest)
                    ltac:(discriminate)) as (c & r & E & Hc).
        rewrite E, skip_ws_indent by (now apply opens_value_not_ws).
        rewrite <- E, IHe; [reflexivity | discriminate | lia | exact Hl].
    + (* the members of a dict *)
      intros [|[key x] fs] lvl k rest Hne Hsize Hwf; [congruence|].
      cbn [fields_size fold_right] in Hsize. fold (fields_size fs) in Hsize.
      destruct Hwf as (Hkey & Hx & Hfs). fold (fields_wf fs) in Hfs.
      assert (Hmember : forall tl,
                 parse_members (S n) (encode_member lvl (key, x) ++ tl)
                 = match skip_ws tl with
                   | [] => None
                   | c2 :: r3 =>
                       if N.eqb c2 (ch ",") then
                         cons_fst (key, x) (parse_members n (skip_ws r3))
                       else if N.eqb c2 (ch "}") then Some ([(key, x)], r3)
                       else None
                   end).
      { intros tl. unfold encode_member, encode_string.
        change (py ": ") with [(ch ":"); (ch " ")].
        cbn [app]. rewrite <- !app_assoc. cbn [app].
        rewrite parse_members_step, scanstring_encoded by exact Hkey.
        rewrite skip_ws_stop by reflexivity.
        change (N.eqb (ch ":") (ch ":")) with true. cbv iota.
        destruct (encode_head lvl x) as (c & r & E & Hc).
        assert (Hskip : skip_ws ((ch " ") :: encode lvl x ++ tl) = encode lvl x ++ tl).
        { rewrite E. cbn [app skip_ws]. change (is_json_ws (ch " ")) with true.
          cbv iota. now rewrite (opens_value_not_ws c Hc). }
        rewrite Hskip, IHv by (auto; lia). reflexivity. }
      destruct fs as [|kv fs].
      * rewrite encode_members_one, Hmember, skip_ws_indent by reflexivity.
        reflexivity.
      * rewrite encode_members_cons, <- !app_assoc, Hmember.
        cbn [app]. rewrite skip_ws_stop by reflexivity.
        change (N.eqb (ch ",") (ch ",")) with true. cbv iota.
        rewrite <- app_assoc.
        destruct (encode_members_head lvl (kv :: fs)
                    (newline_indent k ++ (ch "}") :: rest)
                    ltac:(discriminate)) as (r & E).
        rewrite E, skip_ws_indent by reflexivity.
        rewrite <- E, IHm; [reflexivity | discriminate | lia | exact Hfs].
Qed.

Lemma newline_indent_length (k : nat) : 1 <= length (newline_indent k).
Proof. unfold newline_indent. rewrite length_app. simpl. lia. Qed.

(** The fuel [json_loads] starts with covers the value it reads. *)
Lemma jsize_le_length (v : json) :
  forall lvl, jsize v <= length (encode lvl v).
Proof.
  induction v as [s|l IH|fs IH] using json_induction; intros lvl.
  - cbn [jsize encode]. unfold encode_string. rewrite length_app. simpl. lia.
  - assert (H : forall lvl, elems_size l <= length (encode_items lvl l) + 1).
    { clear lvl. induction IH as [|x l Hx _ IHl]; intros lvl.
      - simpl. lia.
      - destruct l as [|y l].
        + rewrite encode_items_one. cbn. specialize (Hx lvl). lia.
        + rewrite encode_items_cons, length_app. cbn [length].
          rewrite length_app. specialize (Hx lvl). specialize (IHl lvl).
          change (elems_size (x :: y :: l)) with (S (jsize x + elems_size (y :: l))).
          lia. }
    destruct l as [|x l]; [simpl; lia|].
    pose proof (encode_arr lvl x l []) as E. rewrite app_nil_r in E.
    rewrite E. cbn [length]. rewrite !length_app. cbn [length].
    specialize (H (S lvl)).
    change (jsize (JArr (x :: l))) with (S (elems_size (x :: l))). lia.
  - assert (H : forall lvl, fields_size fs <= length (encode_members lvl fs) + 1).
    { clear lvl. induction IH as [|[k x] fs Hx _ IHfs]; intros lvl.
      - simpl. lia.
      - cbn [snd] in Hx. specialize (Hx lvl).
        assert (Hm : jsize x <= length (encode_member lvl (k, x))).
        { unfold encode_member. rewrite !length_app. lia. }
        destruct fs as [|kv fs].
        + rewrite encode_members_one. cbn [fields_size fold_right]. lia.
        + rewrite encode_members_cons, length_app. cbn [length].
          rewrite length_app. specialize (IHfs lvl).
          change (fields_size ((k, x) :: kv :: fs))
            with (S (jsize x + fields_size (kv :: fs))).
          lia. }
    destruct fs as [|kv fs]; [simpl; lia|].
    pose proof (encode_obj lvl kv fs []) as E. rewrite app_nil_r in E.
    rewrite E. cbn [length]. rewrite !length_app. cbn [length].
    specialize (H (S lvl)).
    change (jsize (JObj (kv :: fs))) with (S (fields_size (kv :: fs))). lia.
Qed.

(** Decoding the text [json.dump] writes gives the value back. *)
Lemma json_loads_dumps (v : json) :
  json_wf v -> json_loads (json_dumps v) = Some v.
Proof.
  intros Hwf. unfold json_loads, json_dumps.
  destruct (encode_head 0 v) as (c & r & E & Hc).
  assert (Hskip : skip_ws (encode 0 v) = encode 0 v).
  { rewrite E. now apply skip_ws_stop, opens_value_not_ws. }
  rewrite Hskip. rewrite <- (app_nil_r (encode 0 v)) at 2.
  rewrite (proj1 (decode_encoded (S (length (encode 0 v))))); auto.
  pose proof (jsize_le_length v 0). lia.
Qed.

(* ===================================================================== *)
(** ** [export_chatbot_data]                                              *)
(* ===================================================================== *)

Lemma export_data_wf (business_data : dict str) (qa_pairs : list qa_pair) :
  NoDup (map fst business_data) ->
  unpaired_pairs business_data -> unpaired_pairs qa_pairs ->
  json_wf (export_data business_data qa_pairs).
Proof.
  intros Hnd Hb Hqa. unfold export_data. cbn [json_wf map fst fold_right].
  split; [|split; [|split; [|split; [|split; [|exact I]]]]].
  - constructor; [|constructor; [|constructor]]; cbn [In]; intuition discriminate.
  - split; reflexivity.
  - split; [now rewrite map_map, (map_ext _ fst) by reflexivity|].
    clear Hnd. induction Hb as [|[k x] b [Hk Hx] _ IH]; cbn [map fold_right]; auto.
  - split; reflexivity.
  - induction Hqa as [|[q a] l [Hq Ha] _ IH]; cbn [map fold_right]; auto.
    split; [|exact IH]. cbn [json_wf map fst snd fold_right].
    split; [|split; [split; reflexivity|split; [exact Hq|]]].
    + constructor; [|constructor; [|constructor]]; cbn [In]; intuition discriminate.
    + split; [split; reflexivity|]. split; [exact Ha | exact I].
Qed.

Lemma export_data_inj (b b' : dict str) (qa qa' : list qa_pair) :
  export_data b qa = export_data b' qa' -> b = b' /\ qa = qa'.
Proof.
  unfold export_data. intros [= Hb Hqa]. split.
  - clear Hqa. revert b' Hb. induction b as [|[k x] b IH]; intros [|[k' x'] b'];
      cbn [map fst snd]; intros H; try discriminate; auto.
    injection H as -> -> H. f_equal. now apply IH.
  - clear Hb. revert qa' Hqa. induction qa as [|[q a] l IH]; intros [|[q' a'] l'];
      cbn [map fst snd]; intros H; try discriminate; auto.
    injection H as -> -> H. f_equal. now apply IH.
Qed.

(** What is read from a file just stored. *)
Lemma read_file_store (p : path) (data : str) (fs : filesystem) :
  read_file p (store p data fs) = Some data.
Proof. unfold read_file, store. cbn. now rewrite N.eqb_refl. Qed.

(** The three outcomes of [export_chatbot_data]. *)
Lemma export_chatbot_data_outcome (ROOT_DIR : path)
    (business_data : dict str) (qa_pairs : list qa_pair)
    (output_file : option path) (fs : filesystem) :
  let dest :=
    match output_file with
    | None => default_export_file ROOT_DIR
    | Some p => p
    end in
  let text := json_dumps (export_data business_data qa_pairs) in
  export_chatbot_data ROOT_DIR business_data qa_pairs output_file fs
  = match open_error fs dest with
    | Some e => (Raise e, fs)
    | None =>
        match write_error fs dest text with
        | Some (e, written) => (Raise e, store dest (firstn written text) fs)
        | None => (Ok dest, store dest text fs)
        end
    end.
Proof.
  cbn zeta. unfold export_chatbot_data, mbind, write_file, ret.
  destruct (open_error fs _); [reflexivity|].
  destruct (write_error fs _ _) as [[e written]|]; reflexivity.
Qed.

(** C8: for a profile with distinct keys (a dict) and pairs in which no
    string holds a high surrogate directly before a low surrogate, when
    the destination (the default path [DATA_DIR / "chatbot_export.json"]
    when none is supplied) can be opened and written,
    [export_chatbot_data] returns the destination and leaves there,
    whatever that file held before, a JSON document with exactly the two
    top-level fields [business_info] (the profile) and [qa_pairs] (one
    [{question, answer}] object per pair, in order): reading the file
    back and decoding it gives that document, from which the profile
    and the pairs are recovered. *)
Theorem export_chatbot_data_round_trip (ROOT_DIR : path)
    (business_data : dict str) (qa_pairs : list qa_pair)
    (output_file : option path) (fs : filesystem) :
  let dest :=
    match output_file with
    | None => Div (Div ROOT_DIR (py "data")) (py "chatbot_export.json")
    | Some p => p
    end in
  NoDup (map fst business_data) ->
  unpaired_pairs business_data -> unpaired_pairs qa_pairs ->
  open_error fs dest = None ->
  write_error fs dest (json_dumps (export_data business_data qa_pairs)) = None ->
  exists fs',
    export_chatbot_data ROOT_DIR business_data qa_pairs output_file fs
    = (Ok dest, fs')
    /\ load_export dest fs'
       = Some (JObj
           [ (py "business_info",
               JObj (map (fun kv => (fst kv, JStr (snd kv))) business_data));
             (py "qa_pairs",
               JArr (map (fun qa => JObj [ (py "question", JStr (fst qa));
                                           (py "answer", JStr (snd qa)) ])
                         qa_pairs)) ])
    /\ (forall b' qa',
          load_export dest fs' = Some (export_data b' qa') ->
          b' = business_data /\ qa' = qa_pairs).
Proof.
  intros dest Hnd Hb Hqa Hopen Hwrite.
  pose proof (export_chatbot_data_outcome ROOT_DIR business_data qa_pairs
                output_file fs) as E. cbn zeta in E.
  change (match output_file with
          | Some p => p
          | None => default_export_file ROOT_DIR
          end) with dest in E.
  rewrite Hopen, Hwrite in E. eexists. split; [exact E|].
  assert (Hload : load_export dest
            (store dest (json_dumps (export_data business_data qa_pairs)) fs)
          = Some (export_data business_data qa_pairs)).
  { unfold load_export. rewrite read_file_store.
    now apply json_loads_dumps, export_data_wf. }
  split; [exact Hload|].
  intros b' qa' H. rewrite Hload in H.
  assert (E' : export_data business_data qa_pairs = export_data b' qa')
    by congruence.
  apply export_data_inj in E'. intuition congruence.
Qed.

(** An export to the default path, over a file already there. *)
Lemma export_chatbot_data_round_trip_example :
  read_file (Div (Div (Path (py "/app")) (py "data")) (py "chatbot_export.json"))
    (toy_files Writable) = Some (py "{}")
  /\ exists fs',
       export_chatbot_data (Path (py "/app"))
         [(py "name", py "Corner Shop"); (py "industry", py "bakery")]
         [(py "Open?", py "Yes")] None (toy_files Writable)
       = (Ok (Div (Div (Path (py "/app")) (py "data")) (py "chatbot_export.json")),
          fs')
       /\ load_export
            (Div (Div (Path (py "/app")) (py "data")) (py "chatbot_export.json")) fs'
          = Some (export_data
                    [(py "name", py "Corner Shop"); (py "industry", py "bakery")]
                    [(py "Open?", py "Yes")]).
Proof.
  split; [reflexivity|].
  destruct (export_chatbot_data_round_trip (Path (py "/app"))
              [(py "name", py "Corner Shop"); (py "industry", py "bakery")]
              [(py "Open?", py "Yes")] None (toy_files Writable))
    as (fs' & H1 & H2 & _).
  - constructor; [|constructor; [|constructor]]; cbn [In]; intuition discriminate.
  - repeat constructor.
  - repeat constructor.
  - reflexivity.
  - reflexivity.
  - exists fs'. split; [exact H1 | exact H2].
Defined.

(** C8, the claim as stated fails on a string in which a high
    surrogate stands directly before a low surrogate: the answer
    [U+D83D U+DE00] is written as [\ud83d\ude00], which is read back as
    the single character [U+1F600]. *)
Lemma export_chatbot_data_merges_surrogates :
  exists fs',
    export_chatbot_data (Path (py "/app"))
      [(py "name", py "Corner Shop")]
      [(py "Mood?", [0xd83d; 0xde00]%N)] None (toy_files Writable)
    = (Ok (Div (Div (Path (py "/app")) (py "data")) (py "chatbot_export.json")),
       fs')
    /\ load_export
         (Div (Div (Path (py "/app")) (py "data")) (py "chatbot_export.json")) fs'
       = Some (export_data [(py "name", py "Corner Shop")]
                 [(py "Mood?", [0x1f600]%N)])
    /\ load_export
         (Div (Div (Path (py "/app")) (py "data")) (py "chatbot_export.json")) fs'
       <> Some (export_data [(py "name", py "Corner Shop")]
                  [(py "Mood?", [0xd83d; 0xde00]%N)]).
Proof.
  eexists. split; [reflexivity|].
  split; [vm_compute; reflexivity | vm_compute; discriminate].
Qed.

(* ===================================================================== *)
(** ** More on the string methods                                         *)
(* ===================================================================== *)

(** The fields of a split hold no separator, and joined again they give
    the text back. *)
Lemma split_fields (sep : str) :
  sep <> [] ->
  forall n s, length s <= n ->
    Forall (fun f => contains sep f = false) (split sep s)
    /\ join sep (split sep s) = s.
Proof.
  intros Hsep. induction n as [|n IH]; intros s Hn; rewrite split_eq by auto.
  - destruct s; [|simpl in Hn; lia]. rewrite partition_nil by auto.
    split; [|reflexivity]. constructor; [|constructor].
    now apply contains_short; destruct sep; [congruence | simpl; lia].
  - destruct (partition sep s) as [[b a]|] eqn:E.
    + pose proof (partition_shorter _ _ _ _ Hsep E) as L.
      pose proof (partition_some_first _ _ _ _ Hsep E) as F.
      apply contains_false_app_l in F.
      destruct (IH a ltac:(lia)) as [Hf Hj].
      split; [now constructor|].
      pose proof (split_nonempty sep a Hsep) as Hne.
      destruct (split sep a) as [|f fs] eqn:S; [congruence|].
      change (join sep (b :: f :: fs)) with (b ++ sep ++ join sep (f :: fs)).
      rewrite Hj. symmetry. now apply partition_some.
    + apply partition_none in E. split; [|reflexivity].
      constructor; [exact E | constructor].
Qed.

(** Each field of a split is a part of the text. *)
Lemma split_fields_infix (sep : str) :
  sep <> [] ->
  forall n s, length s <= n ->
    Forall (fun f => exists x y, s = x ++ f ++ y) (split sep s).
Proof.
  intros Hsep. induction n as [|n IH]; intros s Hn; rewrite split_eq by auto.
  - destruct s; [|simpl in Hn; lia]. rewrite partition_nil by auto.
    constructor; [|constructor]. now exists [], [].
  - destruct (partition sep s) as [[b a]|] eqn:E.
    + pose proof (partition_shorter _ _ _ _ Hsep E) as L.
      apply partition_some in E. subst s. constructor.
      * now exists [], (sep ++ a).
      * eapply Forall_impl; [|apply (IH a); lia].
        intros f (x & y & ->). exists (b ++ sep ++ x), y.
        now rewrite <- !app_assoc.
    + constructor; [|constructor]. exists [], []. now rewrite app_nil_r.
Qed.

(** A cut found in a text is the cut found when more text follows. *)
Lemma partition_app_l (sep s b a r : str) :
  sep <> [] -> partition sep s = Some (b, a) ->
  partition sep (s ++ r) = Some (b, a ++ r).
Proof.
  intros Hsep H. pose proof (partition_some_first _ _ _ _ Hsep H) as F.
  apply partition_some in H. subst s. rewrite <- !app_assoc.
  now apply partition_first.
Qed.

(** Splitting at a one-character separator goes part by part. *)
Lemma split_app_char (c : char) :
  forall n a b, length a <= n ->
    split [c] (a ++ c :: b) = split [c] a ++ split [c] b.
Proof.
  assert (Hsep : [c] <> []) by discriminate.
  induction n as [|n IH]; intros a b Hn.
  - destruct a; [|simpl in Hn; lia]. simpl app.
    rewrite (split_eq [c] (c :: b)) by auto.
    change (c :: b) with ([] ++ [c] ++ b). rewrite partition_first by reflexivity.
    reflexivity.
  - rewrite (split_eq [c] a) by auto.
    destruct (partition [c] a) as [[a1 a2]|] eqn:E.
    + pose proof (partition_shorter _ _ _ _ Hsep E) as L.
      rewrite (split_eq [c] (a ++ c :: b)) by auto.
      rewrite (partition_app_l _ _ _ _ (c :: b) Hsep E).
      simpl app. f_equal. apply IH. lia.
    + apply partition_none in E.
      change (a ++ c :: b) with (a ++ [c] ++ b).
      rewrite split_first; auto. simpl removelast. now rewrite app_nil_r.
Qed.

Lemma lstrip_app (s t : str) :
  lstrip (s ++ t) = if forallb is_space s then lstrip t else lstrip s ++ t.
Proof.
  induction s as [|c s IH]; simpl; auto.
  destruct (is_space c); simpl; auto.
Qed.

Lemma lstrip_all_space (s : str) : forallb is_space s = true -> lstrip s = [].
Proof.
  induction s as [|c s IH]; simpl; auto.
  destruct (is_space c); simpl; [exact IH | discriminate].
Qed.

Lemma forallb_rev {A} (f : A -> bool) (l : list A) :
  forallb f (rev l) = forallb f l.
Proof.
  induction l as [|x l IH]; simpl; auto.
  rewrite forallb_app, IH. simpl. rewrite andb_true_r. apply andb_comm.
Qed.

Lemma rstrip_app_spaces (s ws : str) :
  forallb is_space ws = true -> rstrip (s ++ ws) = rstrip s.
Proof.
  intros H. unfold rstrip. rewrite rev_app_distr, lstrip_app, forallb_rev, H.
  reflexivity.
Qed.

(** Whitespace around a text does not change what [strip] returns. *)
Lemma strip_spaces_around (ws1 s ws2 : str) :
  forallb is_space ws1 = true -> forallb is_space ws2 = true ->
  strip (ws1 ++ s ++ ws2) = strip s.
Proof.
  intros H1 H2. unfold strip. rewrite lstrip_app, H1, lstrip_app.
  destruct (forallb is_space s) eqn:E.
  - rewrite (lstrip_all_space ws2 H2), (lstrip_all_space s E). reflexivity.
  - now apply rstrip_app_spaces.
Qed.

(* ===================================================================== *)
(** ** More on [parse_faq_input]                                          *)
(* ===================================================================== *)

Lemma nl_nonempty : nl <> [].
Proof. discriminate. Qed.

(** The lines the parser reads lose nothing of the stripped input:
    joined by line breaks they give it back, and none holds a line
    break. *)
Theorem input_lines_join (raw : str) :
  join nl (input_lines raw) = strip raw
  /\ Forall (fun line => contains nl line = false) (input_lines raw)
  /\ input_lines raw <> [].
Proof.
  unfold input_lines.
  destruct (split_fields nl nl_nonempty _ (strip raw) (le_n _)) as [Hf Hj].
  split; [exact Hj|]. split; [exact Hf|]. now apply split_nonempty.
Qed.

(** Whitespace before and after the whole input changes nothing. *)
Theorem parse_faq_input_ignores_margin (ws1 raw ws2 : str) :
  forallb is_space ws1 = true -> forallb is_space ws2 = true ->
  parse_faq_input (ws1 ++ raw ++ ws2) = parse_faq_input raw.
Proof.
  intros H1 H2. rewrite !parse_faq_input_spec. unfold input_lines.
  now rewrite strip_spaces_around.
Qed.

Lemma parse_faq_input_ignores_margin_example :
  parse_faq_input (nl ++ py "  " ++ py "Q: Open? A: Yes" ++ py " " ++ nl)
  = parse_faq_input (py "Q: Open? A: Yes").
Proof.
  exact (parse_faq_input_ignores_margin (nl ++ py "  ") (py "Q: Open? A: Yes")
           (py " " ++ nl) eq_refl eq_refl).
Defined.

Lemma trimmed_app_nl (a b : str) :
  trimmed a = true -> trimmed b = true -> a <> [] -> b <> [] ->
  trimmed (a ++ nl ++ b) = true.
Proof.
  unfold trimmed. intros Ha Hb Hna Hnb.
  apply andb_true_iff in Ha as [Ha _]. apply andb_true_iff in Hb as [_ Hb].
  apply andb_true_iff. split.
  - destruct a; [congruence | exact Ha].
  - rewrite !rev_app_distr.
    destruct (rev b) eqn:E; [|exact Hb].
    apply (f_equal (@rev char)) in E. rewrite rev_involutive in E.
    simpl in E. congruence.
Qed.

(** Parsing goes line by line: two inputs put one after the other, a
    line break between them, parse to the pairs of the first followed by
    the pairs of the second. *)
Theorem parse_faq_input_app (a b : str) (pa pb : list qa_pair) :
  trimmed a = true -> trimmed b = true -> a <> [] -> b <> [] ->
  parse_faq_input a = Ok pa -> parse_faq_input b = Ok pb ->
  parse_faq_input (a ++ nl ++ b) = Ok (pa ++ pb).
Proof.
  intros Ha Hb Hna Hnb. rewrite !parse_faq_input_spec. unfold input_lines.
  rewrite (strip_fixed _ (trimmed_app_nl a b Ha Hb Hna Hnb)).
  rewrite (strip_fixed a Ha), (strip_fixed b Hb).
  intros [= <-] [= <-].
  unfold nl. change (a ++ [(ch "010")] ++ b) with (a ++ (ch "010") :: b).
  rewrite (split_app_char (ch "010") _ a b (le_n _)).
  now rewrite filter_app, map_app.
Qed.

Lemma parse_faq_input_app_example :
  parse_faq_input (py "Q: Open? A: Yes" ++ nl ++ py "note" ++ nl ++ py "Q: Where? A: Here")
  = Ok ([(py "Open?", py "Yes")] ++ [(py "Where?", py "Here")]).
Proof.
  apply (parse_faq_input_app (py "Q: Open? A: Yes")
           (py "note" ++ nl ++ py "Q: Where? A: Here")).
  - reflexivity.
  - reflexivity.
  - discriminate.
  - discriminate.
  - vm_compute. reflexivity.
  - vm_compute. reflexivity.
Defined.

Lemma nth_split_no_sep (sep s : str) (i : nat) :
  sep <> [] -> contains sep (nth i (split sep s) []) = false.
Proof.
  intros Hsep.
  destruct (split_fields sep Hsep _ s (le_n _)) as [Hf _].
  destruct (nth_in_or_default i (split sep s) []) as [Hin | ->].
  - rewrite Forall_forall in Hf. now apply Hf.
  - apply contains_short. destruct sep; [congruence | simpl; lia].
Qed.

(** No answer holds the answer marker: the answer is cut where the next
    marker starts. *)
Theorem parse_faq_input_answers_cut (raw : str) :
  exists pairs,
    parse_faq_input raw = Ok pairs
    /\ Forall (fun qa => contains Am (snd qa) = false) pairs.
Proof.
  eexists. split; [apply parse_faq_input_spec|].
  apply Forall_map, Forall_forall. intros line _. unfold line_pair. cbn [snd].
  apply contains_strip, nth_split_no_sep, Am_nonempty.
Qed.

(** An input in which one of the markers never occurs gives no pair. *)
Theorem parse_faq_input_needs_both_markers (raw : str) :
  contains Qm raw = false \/ contains Am raw = false ->
  parse_faq_input raw = Ok [].
Proof.
  intros H. rewrite parse_faq_input_spec.
  assert (E : filter candidate (input_lines raw) = []); [|now rewrite E].
  assert (F : Forall (fun line => candidate line = false) (input_lines raw)).
  { pose proof (split_fields_infix nl nl_nonempty _ (strip raw) (le_n _)) as Hin.
    eapply Forall_impl; [|exact Hin].
    intros line (x & y & Hl).
    destruct (strip_decomp raw) as (u & v & Hraw).
    assert (Hm : forall m, contains m raw = false -> contains m line = false).
    { intros m Hc. rewrite Hraw, Hl in Hc.
      apply contains_false_infix in Hc. now apply contains_false_infix in Hc. }
    unfold candidate. destruct H as [H|H]; rewrite (Hm _ H); auto.
    apply andb_false_r. }
  unfold input_lines in *. induction F as [|line l Hc _ IH]; simpl; auto.
  now rewrite Hc.
Qed.

Lemma parse_faq_input_needs_both_markers_example :
  parse_faq_input (py "Q: Are you open?" ++ nl ++ py "Q: Where are you?") = Ok [].
Proof.
  apply parse_faq_input_needs_both_markers. right. reflexivity.
Defined.

(* ===================================================================== *)
(** ** Training text and response clean-up                                *)
(* ===================================================================== *)

Lemma starts_with_before_char (sep u t : str) (c : char) :
  ~ In c sep -> starts_with sep (u ++ c :: t) = true -> exists u', u = sep ++ u'.
Proof.
  revert u. induction sep as [|d sep IH]; intros u Hc H.
  - now exists u.
  - destruct u as [|x u]; simpl in H; apply andb_true_iff in H as [Hd H].
    + apply N.eqb_eq in Hd. subst. elim Hc. now left.
    + apply N.eqb_eq in Hd. subst x.
      destruct (IH u) as [u' ->]; auto.
      * intros Hin. apply Hc. now right.
      * now exists u'.
Qed.

(** Before a character foreign to the separator, the first cut either
    falls inside the text before it or is the separator after it. *)
Lemma partition_before_char (sep post : str) (c : char) :
  sep <> [] -> ~ In c sep ->
  forall u b a,
    partition sep (u ++ c :: sep ++ post) = Some (b, a) ->
    (b = u ++ [c] /\ a = post)
    \/ (exists u', u = b ++ sep ++ u' /\ a = u' ++ c :: sep ++ post).
Proof.
  intros Hsep Hc. induction u as [|x u IH]; intros b a.
  - assert (F : contains sep ([c] ++ removelast sep) = false).
    { simpl app. rewrite contains_eq.
      pose proof (removelast_length sep Hsep) as L.
      rewrite (contains_short sep (removelast sep)) by lia.
      destruct sep as [|d sep']; [congruence|].
      rewrite starts_with_head_ne; [reflexivity|].
      apply N.eqb_neq. intros ->. apply Hc. now left. }
    change ([] ++ c :: sep ++ post) with ([c] ++ sep ++ post).
    rewrite (partition_first _ _ _ F). intros [= <- <-]. now left.
  - rewrite partition_eq.
    destruct (starts_with sep ((x :: u) ++ c :: sep ++ post)) eqn:E.
    + intros [= <- <-]. right.
      destruct (starts_with_before_char _ _ _ _ Hc E) as [u' Hu].
      exists u'. split; [exact Hu|].
      change (skipn (length sep) ((x :: u) ++ c :: sep ++ post)
              = u' ++ c :: sep ++ post).
      rewrite Hu, <- app_assoc. now rewrite skipn_length_app.
    + change ((x :: u) ++ c :: sep ++ post)
        with (x :: (u ++ c :: sep ++ post)). cbv iota.
      destruct (partition sep (u ++ c :: sep ++ post)) as [[b' a']|] eqn:P;
        [|discriminate].
      intros [= <- <-].
      destruct (IH b' a' eq_refl) as [[-> ->] | (u' & -> & ->)].
      * now left.
      * right. now exists u'.
Qed.

(** After a character foreign to the separator and a separator, a text
    that holds no separator is the last field of the split. *)
Lemma last_split_after_char (sep post : str) (c : char) :
  sep <> [] -> ~ In c sep -> contains sep post = false ->
  forall n u, length u <= n ->
    last (split sep (u ++ c :: sep ++ post)) [] = post.
Proof.
  intros Hsep Hc Hpost. induction n as [|n IH]; intros u Hn;
    rewrite split_eq by auto;
    (destruct (partition sep (u ++ c :: sep ++ post)) as [[b a]|] eqn:E;
     [|apply partition_none in E;
       change (u ++ c :: sep ++ post) with (u ++ [c] ++ sep ++ post) in E;
       rewrite app_assoc, contains_intro in E; discriminate]);
    destruct (partition_before_char sep post c Hsep Hc u b a E)
      as [[-> ->] | (u' & -> & ->)];
    try (rewrite (split_none _ _ Hsep Hpost); reflexivity).
  - rewrite !length_app in Hn. destruct sep; [congruence | simpl in Hn; lia].
  - pose proof (split_nonempty sep (u' ++ c :: sep ++ post) Hsep) as Hne.
    rewrite <- (IH u') at 2.
    + destruct (split sep (u' ++ c :: sep ++ post)); [congruence | reflexivity].
    + rewrite !length_app in Hn. destruct sep; [congruence | simpl in Hn; lia].
Qed.

(** Cleaning the text of an example as a response gives its answer. *)
Lemma clean_response_format_example (question answer : str) :
  contains (py "###") answer = false ->
  clean_response (format_example (question, answer)) = Ok (strip answer).
Proof.
  intros Ha. unfold format_example, sep_token. cbn [fst snd].
  assert (Hsep : py "###" <> []) by discriminate.
  unfold clean_response.
  rewrite (getitem_last (split (py "###") _) []) by (now apply split_nonempty).
  cbn [bind]. f_equal.
  change (question ++ py " " ++ py "###" ++ py " " ++ answer)
    with (question ++ (ch " ") :: py "###" ++ ((ch " ") :: answer)).
  assert (Hc : ~ In (ch " ") (py "###")) by (simpl; intuition discriminate).
  assert (Hpost : contains (py "###") ((ch " ") :: answer) = false).
  { rewrite contains_eq.
    change (py "###") with ((ch "#") :: py "##") at 1.
    rewrite starts_with_head_ne by reflexivity. exact Ha. }
  rewrite (last_split_after_char (py "###") ((ch " ") :: answer) (ch " ")
             Hsep Hc Hpost (length question) question (le_n _)).
  pose proof (strip_spaces_around [(ch " ")] answer [] eq_refl eq_refl) as S.
  rewrite app_nil_r in S. exact S.
Qed.

(** The text an example is trained on starts with the prompt sent for
    its question, and cleaning it as a response gives its answer back,
    trimmed, whatever the question holds (separators included). *)
Theorem training_text_round_trip (question answer : str) :
  contains (py "###") answer = false ->
  starts_with (question ++ py " ###") (format_example (question, answer)) = true
  /\ clean_response (format_example (question, answer)) = Ok (strip answer).
Proof.
  intros Ha. split; [|now apply clean_response_format_example].
  unfold format_example, sep_token. cbn [fst snd].
  replace (question ++ py " " ++ py "###" ++ py " " ++ answer)
    with ((question ++ py " ###") ++ py " " ++ answer)
    by (now rewrite <- app_assoc).
  apply starts_with_app.
Qed.

Lemma training_text_round_trip_example :
  clean_response (format_example (py "Is ### a separator?", py "Yes, it is."))
  = Ok (py "Yes, it is.").
Proof.
  rewrite (proj2 (training_text_round_trip (py "Is ### a separator?")
                    (py "Yes, it is.") eq_refl)).
  reflexivity.
Defined.

(** From the input to the response: for every pair the parser returns
    whose answer holds no separator, the text the model is trained on
    for that pair is cleaned to exactly that answer. *)
Theorem parsed_pairs_round_trip (raw : str) :
  exists pairs,
    parse_faq_input raw = Ok pairs
    /\ Forall (fun qa =>
                 contains (py "###") (snd qa) = false ->
                 clean_response (format_example qa) = Ok (snd qa)) pairs.
Proof.
  eexists. split; [apply parse_faq_input_spec|].
  apply Forall_map, Forall_forall. intros line _ H.
  unfold line_pair in *. cbn [snd] in H.
  rewrite (clean_response_format_example _ _ H).
  cbn [snd]. f_equal. apply strip_fixed, trimmed_strip.
Qed.

(* ===================================================================== *)
(** ** The trainer as the repository configures it                        *)
(* ===================================================================== *)

Section TrainerProperties.

Variables world model tokens : Type.
Variable mps_available : bool.
Variable tokenizer_encode : str -> M world tokens.
Variable model_generate : model -> tokens -> pyval -> pyval -> pyval -> M world tokens.
Variable tokenizer_decode : tokens -> M world str.
Variable from_pretrained : path -> M world model.
Variable model_to : model -> str -> M world unit.

Local Abbreviation run_generate :=
  (generate_response mps_available tokenizer_encode model_generate tokenizer_decode).
Local Abbreviation run_load := (load_model mps_available from_pretrained model_to).

(** The outcome of [generate_response] is decided by the tokenizer. *)
Lemma generate_response_outcome (question : str) (tr : trainer world model) :
  run_generate question tr =
  match tokenizer_encode (question ++ py " ###") (tr_world tr) with
  | (Ok _, w) =>
      (Raise (mkExn (py "KeyError") (py "'max_length'")), mkTrainer (tr_model tr) w)
  | (Raise e, w) => (Raise e, mkTrainer (tr_model tr) w)
  end.
Proof.
  unfold generate_response, generate_response_with, mbind, framework, zoom.
  destruct (tokenizer_encode (question ++ py " ###") (tr_world tr)) as [[ids|e] w].
  - destruct mps_available; reflexivity.
  - reflexivity.
Qed.

(** The outcome of [load_model], by the outcome of the two calls it
    makes. *)
Lemma load_model_outcome (model_path : path) (tr : trainer world model) :
  run_load model_path tr =
  match from_pretrained model_path (tr_world tr) with
  | (Raise e, w) => (Raise e, mkTrainer (tr_model tr) w)
  | (Ok m, w) =>
      match model_to m (DEVICE mps_available) w with
      | (r, w') => (r, mkTrainer m w')
      end
  end.
Proof.
  unfold load_model, mbind, framework, zoom, set_model, modify.
  destruct (from_pretrained model_path (tr_world tr)) as [[m|e] w];
    reflexivity.
Qed.

(** [generate_response] never returns a response: whatever the
    tokenizer, the model and the decoder do, it raises, either the
    tokenizer's error or [KeyError: 'max_length'], because the settings
    are looked up in [MODEL_CONFIG]; the model is asked nothing (the
    framework is left as the tokenizer left it) and the trainer keeps
    its model. *)
Theorem generate_response_never_answers (question : str)
    (tr : trainer world model) :
  (forall response, fst (run_generate question tr) <> Ok response)
  /\ snd (run_generate question tr)
     = mkTrainer (tr_model tr)
         (snd (tokenizer_encode (question ++ py " ###") (tr_world tr)))
  /\ (forall ids w,
        tokenizer_encode (question ++ py " ###") (tr_world tr) = (Ok ids, w) ->
        fst (run_generate question tr)
        = Raise (mkExn (py "KeyError") (py "'max_length'"))).
Proof.
  rewrite generate_response_outcome.
  destruct (tokenizer_encode (question ++ py " ###") (tr_world tr)) as [[ids|e] w];
    cbn [fst snd]; repeat split; try discriminate; congruence.
Qed.

(** On that trainer no request of [chat] adds a turn: the history
    returned is the history passed in, and the answer is one of the two
    guidance messages or an error text. *)
Theorem chat_never_records_turn (question model_path : str)
    (history : chat_history) (st : iface (trainer world model)) :
  let answer := fst (chat run_load run_generate question model_path history st) in
  snd answer = history
  /\ (fst answer = py "Please train the chatbot first!"
      \/ fst answer = py "Please ask a question!"
      \/ exists e, fst answer = py "Error: " ++ exn_str e).
Proof.
  cbn zeta.
  destruct model_path as [|pc p]; [split; [reflexivity | now left]|].
  destruct question as [|qc q]; [split; [reflexivity | right; now left]|].
  rewrite chat_passed_checks by discriminate. cbn zeta.
  assert (G : forall t,
             exists e t', run_generate (qc :: q) t = (Raise e, t')).
  { intros t. rewrite generate_response_outcome.
    destruct (tokenizer_encode ((qc :: q) ++ py " ###") (tr_world t))
      as [[ids|e] w]; eauto. }
  destruct (needs_load st (pc :: p)).
  - destruct (run_load (Path (pc :: p)) (trainer_of st)) as [[[]|e] t1].
    + destruct (G t1) as (e & t' & ->). cbn [fst snd]. eauto.
    + cbn [fst snd]. eauto.
  - destruct (G (trainer_of st)) as (e & t' & ->). cbn [fst snd]. eauto.
Qed.

(** A checkpoint that cannot be read leaves the trainer with the model
    it had, and one that cannot be moved to the device leaves it with
    the new model; either way [chat] answers with the error and does not
    take the checkpoint as loaded, so the next request loads again. *)
Theorem chat_failed_load (question p : str) (history : chat_history)
    (st : iface (trainer world model)) (e : exn) :
  question <> [] -> p <> [] -> needs_load st p = true ->
  (forall w,
     from_pretrained (Path p) (tr_world (trainer_of st)) = (Raise e, w) ->
     chat run_load run_generate question p history st
     = ((py "Error: " ++ exn_str e, history),
        mkIface (mkTrainer (tr_model (trainer_of st)) w)
          (loaded_model_path st) (files st)
          (events st ++ [LoadModel (Path p)])))
  /\ (forall m w w',
        from_pretrained (Path p) (tr_world (trainer_of st)) = (Ok m, w) ->
        model_to m (DEVICE mps_available) w = (Raise e, w') ->
        chat run_load run_generate question p history st
        = ((py "Error: " ++ exn_str e, history),
           mkIface (mkTrainer m w') (loaded_model_path st) (files st)
             (events st ++ [LoadModel (Path p)])))
  /\ needs_load
       (mkIface (trainer_of st) (loaded_model_path st) (files st)
          (events st ++ [LoadModel (Path p)])) p = true.
Proof.
  intros Hq Hp N. split; [|split].
  - intros w H. rewrite chat_passed_checks by assumption. cbn zeta.
    rewrite N, load_model_outcome, H. reflexivity.
  - intros m w w' H1 H2. rewrite chat_passed_checks by assumption. cbn zeta.
    rewrite N, load_model_outcome, H1, H2. reflexivity.
  - exact N.
Qed.

End TrainerProperties.

Lemma chat_failed_load_example :
  chat (toy_load_model false) (generate_response false toy_encode toy_generate toy_decode)
    (py "When do you open?") (py "/models/fine_tuned") [] toy_iface
  = ((py "Error: checkpoint not found", []),
     mkIface (mkTrainer 0 tt) None (files toy_iface)
       [LoadModel (Path (py "/models/fine_tuned"))]).
Proof.
  refine (proj1 (chat_failed_load unit nat str false toy_encode toy_generate
                   toy_decode (toy_from_pretrained false) toy_to
                   (py "When do you open?") (py "/models/fine_tuned") []
                   toy_iface (mkExn (py "OSError") (py "checkpoint not found"))
                   _ _ _) tt _);
    [discriminate | discriminate | reflexivity | reflexivity].
Defined.

(* ===================================================================== *)
(** ** Requests on the interface, one after the other                     *)
(* ===================================================================== *)

Section InterfaceProperties.

Variables T tokenized loss : Type.
Variable ROOT_DIR : path.
Variable load_model : path -> M T unit.
Variable generate_response : str -> M T str.
Variable tokenize_data : list example -> M T tokenized.
Variable train : tokenized -> M T (loss * path).
Variable format_loss : loss -> str.
Variable path_str : path -> str.

Local Abbreviation run_chat := (chat load_model generate_response).
Local Abbreviation run_train_chatbot :=
  (train_chatbot ROOT_DIR tokenize_data train format_loss path_str).
Local Abbreviation run_train_chatbot_body :=
  (train_chatbot_body ROOT_DIR tokenize_data train format_loss path_str).

Lemma needs_load_same (t : T) (p : str) (fs : filesystem) (ev : list event) :
  needs_load (mkIface t (Some p) fs ev) p = false.
Proof. unfold needs_load. cbn. now rewrite str_eqb_refl. Qed.

(** A checkpoint is taken as loaded as soon as [load_model] returns,
    whether the response is then generated or not: after a request with
    a question and a path, the same path needs loading again exactly
    when loading was needed and failed. *)
Theorem chat_remembers_load (question p : str) (history : chat_history)
    (st : iface T) :
  question <> [] -> p <> [] ->
  needs_load (snd (run_chat question p history st)) p
  = if needs_load st p
    then match fst (load_model (Path p) (trainer_of st)) with
         | Ok _ => false
         | Raise _ => true
         end
    else false.
Proof.
  intros Hq Hp. rewrite chat_passed_checks by assumption. cbn zeta.
  destruct (needs_load st p) eqn:N.
  - destruct (load_model (Path p) (trainer_of st)) as [[[]|e] t1]; cbn [fst snd].
    + destruct (generate_response question t1) as [[r|e] t2]; cbn [snd];
        apply needs_load_same.
    + exact N.
  - destruct (generate_response question (trainer_of st)) as [[r|e] t2];
      cbn [snd]; apply needs_load_same.
Qed.

(** What a request that got as far as the export leaves behind. *)
Lemma train_chatbot_at_export (business_name industry faq_text : str)
    (st : iface T) (qa_pairs : list qa_pair) (dataset : list example)
    (tokens : tokenized) (trained : loss * path) (t1 t2 : T) :
  parse_faq_input faq_text = Ok qa_pairs ->
  prepare_training_data [(py "name", business_name); (py "industry", industry)]
    qa_pairs industry = Ok dataset ->
  tokenize_data dataset (trainer_of st) = (Ok tokens, t1) ->
  train tokens t1 = (Ok trained, t2) ->
  let reached :=
    events st
    ++ [Info (py "Starting chatbot training...");
        Info (py "FAQs processed successfully");
        Info (py "Training data prepared");
        TokenizeData;
        Info (py "Data tokenized");
        Train;
        Info (py "Model training completed");
        Export] in
  run_train_chatbot business_name industry faq_text st
  = match export_chatbot_data ROOT_DIR
            [(py "name", business_name); (py "industry", industry)]
            qa_pairs None (files st) with
    | (Ok export_path, fs) =>
        ((py "Training completed! Loss: " ++ format_loss (fst trained)
          ++ nl ++ py "Model saved to: " ++ path_str (snd trained)
          ++ nl ++ py "Data exported to: " ++ path_str export_path,
          path_str (snd trained)),
         mkIface t2 (loaded_model_path st) fs
           (reached ++ [Info (py "Chatbot data exported")]))
    | (Raise e, fs) =>
        ((py "Error: " ++ exn_str e, []),
         mkIface t2 (loaded_model_path st) fs reached)
    end.
Proof.
  clear load_model generate_response.
  intros Hparse Hprep Htok Htrain. cbn zeta.
  unfold train_chatbot, train_chatbot_body,
    mbind, emit, modify, of_result, on_trainer, on_files, zoom, ret.
  cbn [trainer_of loaded_model_path files events].
  rewrite Hparse. cbn [trainer_of loaded_model_path files events].
  rewrite Hprep. cbn [trainer_of loaded_model_path files events].
  rewrite Htok. cbn [trainer_of loaded_model_path files events].
  rewrite Htrain. cbn [trainer_of loaded_model_path files events].
  destruct (export_chatbot_data ROOT_DIR _ qa_pairs None (files st))
    as [[export_path|e] fs];
    cbn [trainer_of loaded_model_path files events];
    rewrite <- !app_assoc; reflexivity.
Qed.

(** A request that trains, saves and exports returns the status message
    and the model path; the export file then holds the document made of
    the business name and industry and of the pairs parsed from the
    input, without the pairs of the industry catalog the model was also
    trained on; read back, the file gives that document when no string
    in it pairs up surrogates. *)
Theorem train_chatbot_success (business_name industry faq_text : str)
    (st : iface T) (qa_pairs : list qa_pair) (dataset : list example)
    (tokens : tokenized) (l : loss) (model_path : path) (t1 t2 : T) :
  parse_faq_input faq_text = Ok qa_pairs ->
  prepare_training_data [(py "name", business_name); (py "industry", industry)]
    qa_pairs industry = Ok dataset ->
  tokenize_data dataset (trainer_of st) = (Ok tokens, t1) ->
  train tokens t1 = (Ok (l, model_path), t2) ->
  open_error (files st) (default_export_file ROOT_DIR) = None ->
  write_error (files st) (default_export_file ROOT_DIR)
    (json_dumps (export_data
                   [(py "name", business_name); (py "industry", industry)]
                   qa_pairs)) = None ->
  let out := run_train_chatbot business_name industry faq_text st in
  fst out
  = (py "Training completed! Loss: " ++ format_loss l
     ++ nl ++ py "Model saved to: " ++ path_str model_path
     ++ nl ++ py "Data exported to: " ++ path_str (default_export_file ROOT_DIR),
     path_str model_path)
  /\ trainer_of (snd out) = t2
  /\ read_file (default_export_file ROOT_DIR) (files (snd out))
     = Some (json_dumps
               (export_data [(py "name", business_name); (py "industry", industry)]
                  qa_pairs))
  /\ (unpaired business_name -> unpaired industry -> unpaired_pairs qa_pairs ->
      load_export (default_export_file ROOT_DIR) (files (snd out))
      = Some (export_data [(py "name", business_name); (py "industry", industry)]
                qa_pairs))
  /\ events (snd out)
     = events st
       ++ [Info (py "Starting chatbot training...");
           Info (py "FAQs processed successfully");
           Info (py "Training data prepared");
           TokenizeData;
           Info (py "Data tokenized");
           Train;
           Info (py "Model training completed");
           Export;
           Info (py "Chatbot data exported")].
Proof.
  clear load_model generate_response.
  intros Hparse Hprep Htok Htrain Hopen Hwrite. cbn zeta.
  rewrite (train_chatbot_at_export _ _ _ _ _ _ _ _ _ _ Hparse Hprep Htok Htrain).
  cbn zeta.
  pose proof (export_chatbot_data_outcome ROOT_DIR
                [(py "name", business_name); (py "industry", industry)]
                qa_pairs None (files st)) as E.
  cbv beta iota zeta in E. rewrite Hopen, Hwrite in E. rewrite E.
  cbn [fst snd trainer_of files events].
  split; [reflexivity|]. split; [reflexivity|].
  split; [apply read_file_store|]. split; [|now rewrite <- app_assoc].
  intros Hn Hi Hqa. unfold load_export. rewrite read_file_store.
  apply json_loads_dumps, export_data_wf; auto.
  - constructor; [|constructor; [|constructor]]; cbn [In map fst];
      intuition discriminate.
  - constructor; [|constructor; [|constructor]]; cbn [fst snd];
      (split; [split; reflexivity | assumption]).
Qed.

(** When the model was trained and saved and the export then fails, the
    request answers with the error text and an empty model path: the
    path of the saved model is withheld, although the trainer is the
    trained one.  If the export file could not be opened it is as it
    was; if writing failed after it was opened, it holds only what was
    written of the document before the failure. *)
Theorem train_chatbot_export_failure (business_name industry faq_text : str)
    (st : iface T) (qa_pairs : list qa_pair) (dataset : list example)
    (tokens : tokenized) (trained : loss * path) (t1 t2 : T) (e : exn) :
  parse_faq_input faq_text = Ok qa_pairs ->
  prepare_training_data [(py "name", business_name); (py "industry", industry)]
    qa_pairs industry = Ok dataset ->
  tokenize_data dataset (trainer_of st) = (Ok tokens, t1) ->
  train tokens t1 = (Ok trained, t2) ->
  let out := run_train_chatbot business_name industry faq_text st in
  let dest := default_export_file ROOT_DIR in
  let text :=
    json_dumps (export_data
                  [(py "name", business_name); (py "industry", industry)]
                  qa_pairs) in
  (open_error (files st) dest = Some e ->
   fst out = (py "Error: " ++ exn_str e, [])
   /\ trainer_of (snd out) = t2
   /\ read_file dest (files (snd out)) = read_file dest (files st))
  /\ (forall written,
        open_error (files st) dest = None ->
        write_error (files st) dest text = Some (e, written) ->
        fst out = (py "Error: " ++ exn_str e, [])
        /\ trainer_of (snd out) = t2
        /\ read_file dest (files (snd out)) = Some (firstn written text)).
Proof.
  clear load_model generate_response.
  intros Hparse Hprep Htok Htrain. cbn zeta.
  rewrite (train_chatbot_at_export _ _ _ _ _ _ _ _ _ _ Hparse Hprep Htok Htrain).
  cbn zeta.
  pose proof (export_chatbot_data_outcome ROOT_DIR
                [(py "name", business_name); (py "industry", industry)]
                qa_pairs None (files st)) as E.
  cbv beta iota zeta in E. split.
  - intros Hopen. rewrite Hopen in E. rewrite E. repeat split.
  - intros written Hopen Hwrite. rewrite Hopen, Hwrite in E. rewrite E.
    cbn [fst snd trainer_of files].
    split; [reflexivity|]. split; [reflexivity|]. apply read_file_store.
Qed.

End InterfaceProperties.

Lemma chat_remembers_load_example :
  needs_load
    (snd (chat (toy_load_model true) (toy_generate_response false)
            (py "When do you open?") (py "/models/fine_tuned") [] toy_iface))
    (py "/models/fine_tuned") = false
  /\ needs_load
       (snd (chat (toy_load_model false) (toy_generate_response true)
               (py "When do you open?") (py "/models/fine_tuned") [] toy_iface))
       (py "/models/fine_tuned") = true.
Proof.
  split.
  - rewrite (chat_remembers_load toy_trainer (toy_load_model true)
               (toy_generate_response false)
               (py "When do you open?") (py "/models/fine_tuned") [] toy_iface
               ltac:(discriminate) ltac:(discriminate)).
    reflexivity.
  - rewrite (chat_remembers_load toy_trainer (toy_load_model false)
               (toy_generate_response true)
               (py "When do you open?") (py "/models/fine_tuned") [] toy_iface
               ltac:(discriminate) ltac:(discriminate)).
    reflexivity.
Defined.

Lemma train_chatbot_success_example :
  fst (train_chatbot (Path (py "/app")) (toy_tokenize_data true) (toy_train true)
         (fun _ => py "0.0000") toy_path_str
         (py "Corner Shop") (py "retail") (py "Q: Open? A: Yes") toy_iface)
  = (py "Training completed! Loss: 0.0000" ++ nl
     ++ py "Model saved to: /app/models/fine_tuned" ++ nl
     ++ py "Data exported to: /app/data/chatbot_export.json",
     py "/app/models/fine_tuned")
  /\ load_export (default_export_file (Path (py "/app")))
       (files (snd (train_chatbot (Path (py "/app")) (toy_tokenize_data true)
                      (toy_train true) (fun _ => py "0.0000") toy_path_str
                      (py "Corner Shop") (py "retail") (py "Q: Open? A: Yes")
                      toy_iface)))
     = Some (export_data [(py "name", py "Corner Shop"); (py "industry", py "retail")]
               [(py "Open?", py "Yes")]).
Proof.
  destruct (train_chatbot_success toy_trainer (list str) nat (Path (py "/app"))
              (toy_tokenize_data true) (toy_train true)
              (fun _ => py "0.0000") toy_path_str
              (py "Corner Shop") (py "retail") (py "Q: Open? A: Yes") toy_iface
              [(py "Open?", py "Yes")]
              [mkExample (py "Open? ### Yes");
               mkExample (py "What are your store hours? ### Our store is open Monday through Saturday from 9 AM to 6 PM.");
               mkExample (py "Do you offer returns? ### Yes, we offer returns within 30 days of purchase with original receipt.")]
              [py "Open? ### Yes";
               py "What are your store hours? ### Our store is open Monday through Saturday from 9 AM to 6 PM.";
               py "Do you offer returns? ### Yes, we offer returns within 30 days of purchase with original receipt."]
              0 (Div (MODELS_DIR (Path (py "/app"))) (py "fine_tuned"))
              (mkTrainer 0 tt) (mkTrainer 0 tt)
              ltac:(vm_compute; reflexivity) ltac:(vm_compute; reflexivity)
              ltac:(vm_compute; reflexivity) ltac:(vm_compute; reflexivity)
              ltac:(reflexivity) ltac:(reflexivity))
    as (H1 & _ & _ & H4 & _).
  split; [rewrite H1; reflexivity|].
  apply H4; [split; reflexivity | split; reflexivity | repeat constructor].
Defined.

(** On a disk that cannot be opened for writing, and on a disk that
    fills up after ten characters. *)
Lemma train_chatbot_export_failure_example :
  fst (train_chatbot (Path (py "/app")) (toy_tokenize_data true) (toy_train true)
         (fun _ => py "0.0000") toy_path_str
         (py "Corner Shop") (py "bakery") (py "Q: Open? A: Yes")
         (mkIface (mkTrainer 0 tt) None (toy_files ReadOnly) []))
  = (py "Error: read-only file system", [])
  /\ read_file (default_export_file (Path (py "/app")))
       (files (snd (train_chatbot (Path (py "/app")) (toy_tokenize_data true)
                      (toy_train true) (fun _ => py "0.0000") toy_path_str
                      (py "Corner Shop") (py "bakery") (py "Q: Open? A: Yes")
                      (mkIface (mkTrainer 0 tt) None (toy_files ReadOnly) []))))
     = Some (py "{}")
  /\ fst (train_chatbot (Path (py "/app")) (toy_tokenize_data true) (toy_train true)
            (fun _ => py "0.0000") toy_path_str
            (py "Corner Shop") (py "bakery") (py "Q: Open? A: Yes")
            (mkIface (mkTrainer 0 tt) None (toy_files Full) []))
     = (py "Error: no space left on device", [])
  /\ read_file (default_export_file (Path (py "/app")))
       (files (snd (train_chatbot (Path (py "/app")) (toy_tokenize_data true)
                      (toy_train true) (fun _ => py "0.0000") toy_path_str
                      (py "Corner Shop") (py "bakery") (py "Q: Open? A: Yes")
                      (mkIface (mkTrainer 0 tt) None (toy_files Full) []))))
     = Some (py "{" ++ nl ++ py "  " ++ dquote :: py "busin").
Proof.
  pose (run := fun d e =>
          train_chatbot_export_failure toy_trainer (list str) nat (Path (py "/app"))
            (toy_tokenize_data true) (toy_train true)
            (fun _ => py "0.0000") toy_path_str
            (py "Corner Shop") (py "bakery") (py "Q: Open? A: Yes")
            (mkIface (mkTrainer 0 tt) None (toy_files d) [])
            [(py "Open?", py "Yes")] [mkExample (py "Open? ### Yes")]
            [py "Open? ### Yes"]
            (0, Div (MODELS_DIR (Path (py "/app"))) (py "fine_tuned"))
            (mkTrainer 0 tt) (mkTrainer 0 tt) e
            ltac:(vm_compute; reflexivity) ltac:(vm_compute; reflexivity)
            ltac:(vm_compute; reflexivity) ltac:(vm_compute; reflexivity)).
  destruct (run ReadOnly (mkExn (py "PermissionError") (py "read-only file system")))
    as [H _].
  destruct (H eq_refl) as (H1 & _ & H0).
  destruct (run Full (mkExn (py "OSError") (py "no space left on device")))
    as [_ H'].
  destruct (H' 10 eq_refl eq_refl) as (H2 & _ & H3).
  split; [exact H1|]. split; [rewrite H0; reflexivity|].
  split; [exact H2|]. rewrite H3. vm_compute. reflexivity.
Defined.

(* ===================================================================== *)
(** ** [ChatbotTrainer.train]                                             *)
(* ===================================================================== *)

Section TrainProperties.

Variables world model dataset loss hf_arguments hf_trainer : Type.
Variable mps_available : bool.
Variable ROOT_DIR : path.
Variable path_str : path -> str.
Variable TrainingArguments : training_arguments -> M world hf_arguments.
Variable Trainer : model -> hf_arguments -> dataset -> M world hf_trainer.
Variable empty_cache : M world unit.
Variable trainer_train : hf_trainer -> M world loss.
Variable save_model : hf_trainer -> M world unit.

Local Abbreviation run_train :=
  (train mps_available ROOT_DIR path_str TrainingArguments Trainer
     empty_cache trainer_train save_model).

(** The directory [train] works in. *)
Local Abbreviation dir_of output :=
  (match output with
   | None => Div (Div ROOT_DIR (py "models")) (py "fine_tuned")
   | Some p => p
   end).

(** The arguments [train] builds from [TRAINING_CONFIG]. *)
Local Abbreviation arguments_of output :=
  {| output_dir := path_str (dir_of output);
     num_train_epochs := PInt 1;
     per_device_train_batch_size := PInt 2;
     learning_rate := PFloat 1 (-4);
     warmup_steps := PInt 10;
     max_grad_norm := PFloat 10 (-1);
     gradient_accumulation_steps := PInt 4;
     logging_dir := path_str (Div (dir_of output) (py "logs"));
     save_strategy := py "no";
     remove_unused_columns := true;
     logging_steps := 1;
     use_mps_device := mps_available;
     fp16 := false;
     optim := py "adamw_torch";
     max_steps := 50 |}.

(** [train] up to the call that trains: every key it reads is in
    [TRAINING_CONFIG]. *)
Lemma train_outcome (data : dataset) (output : option path)
    (tr : trainer world model) :
  run_train data output tr =
  match TrainingArguments (arguments_of output) (tr_world tr) with
  | (Raise e, w1) => (Raise e, mkTrainer (tr_model tr) w1)
  | (Ok args, w1) =>
      match Trainer (tr_model tr) args data w1 with
      | (Raise e, w2) => (Raise e, mkTrainer (tr_model tr) w2)
      | (Ok hf, w2) =>
          match (if mps_available then empty_cache w2 else (Ok tt, w2)) with
          | (Raise e, w3) => (Raise e, mkTrainer (tr_model tr) w3)
          | (Ok _, w3) =>
              match trainer_train hf w3 with
              | (Raise e, w4) => (Raise e, mkTrainer (tr_model tr) w4)
              | (Ok l, w4) =>
                  match save_model hf w4 with
                  | (Raise e, w5) => (Raise e, mkTrainer (tr_model tr) w5)
                  | (Ok _, w5) =>
                      (Ok (l, dir_of output), mkTrainer (tr_model tr) w5)
                  end
              end
          end
      end
  end.
Proof.
  unfold train, mbind, framework, zoom, of_result, get, ret, MODELS_DIR.
  cbn [dict_index TRAINING_CONFIG].
  assert (D : str_eqb (DEVICE mps_available) (py "mps") = mps_available)
    by (destruct mps_available; reflexivity).
  change (dict_index TRAINING_CONFIG (py "num_epochs")) with (Ok (PInt 1)).
  change (dict_index TRAINING_CONFIG (py "batch_size")) with (Ok (PInt 2)).
  change (dict_index TRAINING_CONFIG (py "learning_rate")) with (Ok (PFloat 1 (-4))).
  change (dict_index TRAINING_CONFIG (py "warmup_steps")) with (Ok (PInt 10)).
  change (dict_index TRAINING_CONFIG (py "max_grad_norm")) with (Ok (PFloat 10 (-1))).
  change (dict_index TRAINING_CONFIG (py "gradient_accumulation_steps"))
    with (Ok (PInt 4)).
  cbv beta iota zeta. rewrite !D.
  destruct (TrainingArguments _ (tr_world tr)) as [[args|e] w1];
    cbn [tr_model tr_world]; [|reflexivity].
  destruct (Trainer (tr_model tr) args data w1) as [[hf|e] w2];
    cbn [tr_model tr_world]; [|reflexivity].
  destruct mps_available; cbv iota; cbn [tr_model tr_world].
  - destruct (empty_cache w2) as [[[]|e] w3]; cbn [tr_model tr_world]; [|reflexivity].
    destruct (trainer_train hf w3) as [[l|e] w4]; cbn [tr_model tr_world]; [|reflexivity].
    destruct (save_model hf w4) as [[[]|e] w5]; reflexivity.
  - cbn [tr_model tr_world].
    destruct (trainer_train hf w2) as [[l|e] w4]; cbn [tr_model tr_world]; [|reflexivity].
    destruct (save_model hf w4) as [[[]|e] w5]; reflexivity.
Qed.

(** When the framework does its part, [train] hands it the values of
    [TRAINING_CONFIG] (but not its [max_length]) with the step limit 50,
    works in the directory given or in [models/fine_tuned], empties the
    cache on an MPS device only, saves after training, and returns the
    loss with that directory. *)
Theorem train_success (data : dataset) (output : option path)
    (tr : trainer world model) (args : hf_arguments) (hf : hf_trainer)
    (l : loss) (w1 w2 w3 w4 w5 : world) :
  TrainingArguments (arguments_of output) (tr_world tr) = (Ok args, w1) ->
  Trainer (tr_model tr) args data w1 = (Ok hf, w2) ->
  (if mps_available then empty_cache w2 = (Ok tt, w3) else w3 = w2) ->
  trainer_train hf w3 = (Ok l, w4) ->
  save_model hf w4 = (Ok tt, w5) ->
  run_train data output tr = (Ok (l, dir_of output), mkTrainer (tr_model tr) w5).
Proof.
  intros H1 H2 H3 H4 H5. rewrite train_outcome, H1, H2.
  destruct mps_available; [rewrite H3 | subst w3]; now rewrite H4, H5.
Qed.

(** When training itself fails, the error is raised again and nothing is
    saved: the framework is left as the failed call left it. *)
Theorem train_failure_saves_nothing (data : dataset) (output : option path)
    (tr : trainer world model) (args : hf_arguments) (hf : hf_trainer)
    (e : exn) (w1 w2 w3 w4 : world) :
  TrainingArguments (arguments_of output) (tr_world tr) = (Ok args, w1) ->
  Trainer (tr_model tr) args data w1 = (Ok hf, w2) ->
  (if mps_available then empty_cache w2 = (Ok tt, w3) else w3 = w2) ->
  trainer_train hf w3 = (Raise e, w4) ->
  run_train data output tr = (Raise e, mkTrainer (tr_model tr) w4).
Proof.
  intros H1 H2 H3 H4. rewrite train_outcome, H1, H2.
  destruct mps_available; [rewrite H3 | subst w3]; now rewrite H4.
Qed.

(** Whatever the framework does, [train] never replaces the trainer's
    model, and a directory it returns is the one given, or
    [models/fine_tuned] when none was. *)
Theorem train_keeps_model (data : dataset) (output : option path)
    (tr : trainer world model) :
  tr_model (snd (run_train data output tr)) = tr_model tr
  /\ (forall l p, fst (run_train data output tr) = Ok (l, p) -> p = dir_of output).
Proof.
  rewrite train_outcome.
  destruct (TrainingArguments _ (tr_world tr)) as [[args|e] w1];
    [|split; [reflexivity | discriminate]].
  destruct (Trainer (tr_model tr) args data w1) as [[hf|e] w2];
    [|split; [reflexivity | discriminate]].
  destruct (if mps_available then empty_cache w2 else (Ok tt, w2)) as [[[]|e] w3];
    [|split; [reflexivity | discriminate]].
  destruct (trainer_train hf w3) as [[l|e] w4];
    [|split; [reflexivity | discriminate]].
  destruct (save_model hf w4) as [[[]|e] w5];
    [|split; [reflexivity | discriminate]].
  split; [reflexivity|]. cbn [fst]. congruence.
Qed.

End TrainProperties.

(** On the scripted framework, without MPS: the calls made, in order. *)
Lemma train_success_example :
  toy_run_train false true [py "Open? ### Yes"; py "Where? ### Here"] None
    (mkTrainer 7 [])
  = (Ok (2, Div (Div (Path (py "/app")) (py "models")) (py "fine_tuned")),
     mkTrainer 7
       [CallTrainingArguments
          {| output_dir := py "/app/models/fine_tuned";
             num_train_epochs := PInt 1;
             per_device_train_batch_size := PInt 2;
             learning_rate := PFloat 1 (-4);
             warmup_steps := PInt 10;
             max_grad_norm := PFloat 10 (-1);
             gradient_accumulation_steps := PInt 4;
             logging_dir := py "/app/models/fine_tuned/logs";
             save_strategy := py "no";
             remove_unused_columns := true;
             logging_steps := 1;
             use_mps_device := false;
             fp16 := false;
             optim := py "adamw_torch";
             max_steps := 50 |};
        CallTrainer 7; CallTrain; CallSaveModel]).
Proof.
  unfold toy_run_train.
  erewrite (train_success toy_world nat (list str) nat training_arguments nat
              false (Path (py "/app")) toy_path_str
              toy_TrainingArguments toy_Trainer toy_empty_cache
              (toy_trainer_train true) toy_save_model
              [py "Open? ### Yes"; py "Where? ### Here"] None (mkTrainer 7 []));
    [reflexivity | reflexivity | reflexivity | reflexivity | reflexivity | reflexivity].
Defined.

(** On the scripted framework, on an MPS device, training fails: the
    cache was emptied, and no model was saved. *)
Lemma train_failure_saves_nothing_example :
  exists args,
    toy_run_train true false [py "Open? ### Yes"] None (mkTrainer 7 [])
    = (Raise (mkExn (py "RuntimeError") (py "out of memory")),
       mkTrainer 7 [CallTrainingArguments args; CallTrainer 7; CallEmptyCache; CallTrain]).
Proof.
  eexists. unfold toy_run_train.
  erewrite (train_failure_saves_nothing toy_world nat (list str) nat
              training_arguments nat
              true (Path (py "/app")) toy_path_str
              toy_TrainingArguments toy_Trainer toy_empty_cache
              (toy_trainer_train false) toy_save_model
              [py "Open? ### Yes"] None (mkTrainer 7 []));
    [reflexivity | reflexivity | reflexivity | reflexivity | reflexivity].
Defined.

(* ===================================================================== *)
(** ** The export is a plain ASCII text                                   *)
(* ===================================================================== *)

Lemma u_escape_plain (n : N) : forallb is_plain_ascii (u_escape n) = true.
Proof.
  unfold u_escape. rewrite forallb_app. cbn [forallb].
  rewrite !hex_digit_plain by (apply N.mod_lt; discriminate). reflexivity.
Qed.

Lemma escape_char_plain (c : char) : forallb is_plain_ascii (escape_char c) = true.
Proof.
  unfold escape_char.
  destruct (N.eqb c dquote); [reflexivity|].
  destruct (N.eqb c backslash); [reflexivity|].
  destruct (c =? 10)%N; [reflexivity|].
  destruct (c =? 13)%N; [reflexivity|].
  destruct (c =? 9)%N; [reflexivity|].
  destruct (c =? 8)%N; [reflexivity|].
  destruct (c =? 12)%N; [reflexivity|].
  destruct ((32 <=? c) && (c <=? 126))%N eqn:Hp.
  { cbn [forallb]. unfold is_plain_ascii. now rewrite Hp. }
  destruct (c <? 65536)%N; [apply u_escape_plain|].
  cbv zeta. now rewrite forallb_app, !u_escape_plain.
Qed.

Lemma encode_string_plain (s : str) : forallb is_plain_ascii (encode_string s) = true.
Proof.
  unfold encode_string. rewrite !forallb_app. cbn [forallb].
  replace (forallb is_plain_ascii (flat_map escape_char s)) with true; [reflexivity|].
  symmetry. induction s as [|c s IH]; [reflexivity|].
  cbn [flat_map]. now rewrite forallb_app, escape_char_plain.
Qed.

Lemma newline_indent_plain (k : nat) : forallb is_plain_ascii (newline_indent k) = true.
Proof.
  unfold newline_indent. rewrite forallb_app.
  replace (forallb is_plain_ascii (repeat (ch " ") (2 * k))) with true; [reflexivity|].
  symmetry. induction (2 * k) as [|n IH]; [reflexivity | exact IH].
Qed.

Lemma join_plain (sep : str) (parts : list str) :
  forallb is_plain_ascii sep = true ->
  Forall (fun p => forallb is_plain_ascii p = true) parts ->
  forallb is_plain_ascii (join sep parts) = true.
Proof.
  intros Hsep H. induction H as [|p parts Hp _ IH]; [reflexivity|].
  destruct parts as [|q parts]; [exact Hp|].
  change (join sep (p :: q :: parts)) with (p ++ sep ++ join sep (q :: parts)).
  now rewrite !forallb_app, Hp, Hsep, IH.
Qed.

Lemma item_separator_plain (k : nat) :
  forallb is_plain_ascii (item_separator k) = true.
Proof.
  unfold item_separator. rewrite forallb_app. now rewrite newline_indent_plain.
Qed.

(** Whatever the strings of a document hold, the text [json.dump]
    writes for it is made of printable ASCII characters and line breaks:
    it can be written in any encoding that extends ASCII. *)
Theorem json_dumps_plain_ascii (v : json) :
  forallb is_plain_ascii (json_dumps v) = true
  /\ forall business_data qa_pairs,
       forallb is_plain_ascii (json_dumps (export_data business_data qa_pairs))
       = true.
Proof.
  assert (P : forall v lvl, forallb is_plain_ascii (encode lvl v) = true).
  { clear v. intros v.
    induction v as [s|l IH|fs IH] using json_induction; intros lvl.
    - apply encode_string_plain.
    - destruct l as [|x l]; [reflexivity|].
      cbn [encode]. rewrite !forallb_app, !newline_indent_plain.
      rewrite join_plain; [reflexivity | apply item_separator_plain |].
      apply Forall_map. eapply Forall_impl; [|exact IH].
      intros a Ha. apply Ha.
    - destruct fs as [|kv fs]; [reflexivity|].
      cbn [encode]. rewrite !forallb_app, !newline_indent_plain.
      rewrite join_plain; [reflexivity | apply item_separator_plain |].
      apply Forall_map. eapply Forall_impl; [|exact IH].
      intros [k x] Hx. cbn [snd] in Hx.
      now rewrite !forallb_app, encode_string_plain, Hx. }
  split; [apply P | intros; apply P].
Qed.

(* ===================================================================== *)
(** ** [setup_logger]                                                     *)
(* ===================================================================== *)

(** [setup_logger] drops the handlers the logger had, whatever they
    were, and installs the console handler and then the file handler,
    on the file given or on [logs/chatbot.log], both at the configured
    level; when the file cannot be opened the error is raised again and
    the logger is left with the console handler only. *)
Theorem setup_logger_handlers (ROOT_DIR : path)
    (open_log_error : logval -> option exn) (log_file : option path)
    (handlers : list handler) :
  let target :=
    LPath match log_file with
          | Some p => p
          | None => Div (Div ROOT_DIR (py "logs")) (py "chatbot.log")
          end in
  let console := mkHandler Stdout console_format (LText (py "INFO")) None None in
  let file :=
    mkHandler (FileSink target) file_format (LText (py "INFO"))
      (Some (LText (py "1 day"))) (Some (LText (py "1 week"))) in
  setup_logger ROOT_DIR open_log_error log_file handlers
  = match open_log_error target with
    | None => (Ok tt, [console; file])
    | Some e => (Raise e, [console])
    end.
Proof.
  destruct log_file as [p|]; cbv;
    match goal with |- context [open_log_error ?t] =>
      destruct (open_log_error t) end; reflexivity.
Qed.
